(** * Population dynamics: the RK4 stepper and the model registry

    A shallow embedding of [population_app.py]: the two generator methods
    of [RK4Solver], the registry built by [PopulationModels.__init__] and
    [AnimatedPopulationGUI.create_model_functions], over IEEE binary64
    numbers (the kernel's primitive floats, which are what a Python
    [float] is). *)

From Stdlib Require Import ZArith Lia List Ascii.
From Stdlib Require Import Floats DecimalString.
From stdpp Require Import base list strings.
Import ListNotations.

Local Open Scope Z_scope.

(** ** Python exceptions and results *)

(** The exceptions that the modelled code can raise.  All of them are
    Python's own: the program defines no exception class. [NotModelled]
    is not a Python exception: it marks an expression text that lies
    outside the fragment of Python expressions evaluated below. *)
Inductive exn : Type :=
  | ZeroDivisionError
  | OverflowError
  | NameError (name : string)
  | TypeError
  | IndexError
  | KeyError (key : string)
  | SyntaxError
  | NotModelled.

(** The class name under which an exception is seen by a handler. *)
Definition exn_class (e : exn) : string :=
  match e with
  | ZeroDivisionError => "ZeroDivisionError"
  | OverflowError => "OverflowError"
  | NameError _ => "NameError"
  | TypeError => "TypeError"
  | IndexError => "IndexError"
  | KeyError _ => "KeyError"
  | SyntaxError => "SyntaxError"
  | NotModelled => "NotModelled"
  end.

Inductive result (A : Type) : Type :=
  | Ok (a : A)
  | Err (e : exn).
Arguments Ok {A} a.
Arguments Err {A} e.

Definition bind {A B : Type} (r : result A) (k : A -> result B) : result B :=
  match r with
  | Ok a => k a
  | Err e => Err e
  end.

Notation "'let*' x ':=' r 'in' k" := (bind r (fun x => k))
  (at level 10, x pattern, r at level 100, k at level 200).

(** A comprehension [[g(a) for a in l]] whose body can raise: elements are
    evaluated left to right and the first exception ends it. *)
Fixpoint mapM {A B : Type} (g : A -> result B) (l : list A) : result (list B) :=
  match l with
  | [] => Ok []
  | a :: l' =>
      let* b := g a in
      let* bs := mapM g l' in
      Ok (b :: bs)
  end.

(** ** Python values

    What a call of a right-hand-side function can return: an [int], a
    [float], or some other object (the [np] module, a builtin), on which
    arithmetic raises [TypeError]. *)
Inductive value : Type :=
  | VInt (n : Z)
  | VFloat (x : float)
  | VObject (name : string).

(** Rounding of the rational [p / q] ([q > 0]) to the nearest binary64,
    ties to even: the quotient is taken with at least 64 significant bits
    and a sticky bit, then rounded by the Standard Library's IEEE model. *)
Definition round_ratio (p : Z) (q : positive) : spec_float :=
  let k := Z.max 0 (64 + Z.log2 (Z.pos q) - Z.log2 (Z.abs p)) in
  let n := Z.abs p * 2 ^ k in
  let m := n / Z.pos q in
  let sticky := if (n mod Z.pos q =? 0) then 0 else 1 in
  binary_normalize prec emax (Z.sgn p * (2 * m + sticky)) (- k - 1) false.

(** [float(n)] for an [int], as the conversion made by mixed arithmetic:
    [OverflowError] when the rounded value is not finite. *)
Definition float_of_int (n : Z) : result float :=
  match round_ratio n 1 with
  | S754_infinity _ => Err OverflowError
  | sf => Ok (SF2Prim sf)
  end.

(** [h * v] for a float [h]. *)
Definition float_mul_value (h : float) (v : value) : result float :=
  match v with
  | VFloat x => Ok (h * x)%float
  | VInt n => let* x := float_of_int n in Ok (h * x)%float
  | VObject _ => Err TypeError
  end.

(** A callable applied to positional arguments, all floats here:
    [f(t, x)] is [f [t; x]] and [f(t, *vals)] is [f (t :: vals)]. *)
Definition callable : Type := list float -> result value.

(** ** Generators *)

(** What one [next()] on a generator gives. *)
Inductive outcome (A : Type) : Type :=
  | Yield (a : A)
  | StopIteration
  | Raise (e : exn).
Arguments Yield {A} a.
Arguments StopIteration {A}.
Arguments Raise {A} e.

(** How pulling from a generator until it stops has ended; [Pending] means
    that the pulls allowed were used up before the generator stopped. *)
Inductive ending : Type :=
  | Exhausted
  | Raised (e : exn)
  | Pending.

(** ** RK4Solver.solve_single_ode_animated *)

(** The frame of the generator: not started, suspended at a [yield] with
    its locals ([i] counts the loop iterations done), or finished. *)
Inductive single_frame : Type :=
  | SCreated
  | SSuspended (t_curr x_curr : float) (i : Z)
  | SFinished.

Section SolveSingle.
Variables (f : callable) (t0 x0 h : float) (n_steps : Z).

(** The body of the [for] loop up to the [yield]. *)
Definition single_body (t_curr x_curr : float) : result (float * float) :=
  let* v1 := f [t_curr; x_curr] in
  let* k1 := float_mul_value h v1 in
  let* v2 := f [(t_curr + h / 2)%float; (x_curr + k1 / 2)%float] in
  let* k2 := float_mul_value h v2 in
  let* v3 := f [(t_curr + h / 2)%float; (x_curr + k2 / 2)%float] in
  let* k3 := float_mul_value h v3 in
  let* v4 := f [(t_curr + h)%float; (x_curr + k3)%float] in
  let* k4 := float_mul_value h v4 in
  let x_next := (x_curr + (k1 + 2 * k2 + 2 * k3 + k4) / 6)%float in
  let t_next := (t_curr + h)%float in
  Ok (t_next, x_next).

(** One [next()]. [range(n_steps)] is empty when [n_steps <= 0]. *)
Definition single_next (fr : single_frame)
  : outcome (float * float) * single_frame :=
  match fr with
  | SCreated => (Yield (t0, x0), SSuspended t0 x0 0)
  | SSuspended t_curr x_curr i =>
      if i <? n_steps then
        match single_body t_curr x_curr with
        | Ok (t', x') => (Yield (t', x'), SSuspended t' x' (i + 1))
        | Err e => (Raise e, SFinished)
        end
      else (StopIteration, SFinished)
  | SFinished => (StopIteration, SFinished)
  end.

(** Pulling until the generator stops, at most [fuel] times. *)
Fixpoint single_pulls (fuel : nat) (fr : single_frame)
  : list (float * float) * ending :=
  match fuel with
  | O => ([], Pending)
  | S fuel' =>
      match single_next fr with
      | (Yield s, fr') =>
          let (l, e) := single_pulls fuel' fr' in (s :: l, e)
      | (StopIteration, _) => ([], Exhausted)
      | (Raise e, _) => ([], Raised e)
      end
  end.

(** The whole run: [n_steps + 2] pulls always reach the end. *)
Definition run_single : list (float * float) * ending :=
  single_pulls (Z.to_nat n_steps + 2) SCreated.
End SolveSingle.

(** ** Lists as objects

    [solve_system_ode_animated] receives the caller's list, copies it and
    updates its copy in place; list objects therefore live in a store,
    addressed by location. Allocation puts the new object at the end. *)
Abbreviation loc := nat (only parsing).
Abbreviation heap := (list (list float)) (only parsing).

Definition alloc (hp : heap) (v : list float) : loc * heap :=
  (length hp, hp ++ [v]).

(** [l[i]] for a list value. *)
Definition index (l : list float) (i : nat) : result float :=
  match l !! i with
  | Some x => Ok x
  | None => Err IndexError
  end.

(** ** RK4Solver.solve_system_ode_animated *)

Inductive system_frame : Type :=
  | YCreated
  | YSuspended (n_vars : nat) (t_curr : float) (curr_vals : loc) (step : Z)
  | YFinished.

Section SolveSystem.
Variables (functions : list callable) (t0 : float)
          (initial_conditions : loc) (h : float) (n_steps : Z).

(** [[h * f(t, *vals) for f in functions]] *)
Definition stage (t : float) (vals : list float) : result (list float) :=
  mapM (fun f : callable =>
          let* v := f (t :: vals) in float_mul_value h v) functions.

(** [[curr_vals[i] + k[i] / 2 for i in range(n_vars)]] *)
Definition half_shift (n_vars : nat) (cur k : list float)
  : result (list float) :=
  mapM (fun i => let* c := index cur i in
                 let* a := index k i in
                 Ok (c + a / 2)%float) (seq 0 n_vars).

(** [[curr_vals[i] + k[i] for i in range(n_vars)]] *)
Definition full_shift (n_vars : nat) (cur k : list float)
  : result (list float) :=
  mapM (fun i => let* c := index cur i in
                 let* a := index k i in
                 Ok (c + a)%float) (seq 0 n_vars).

(** The four stages of one iteration. *)
Definition stages (n_vars : nat) (t_curr : float) (cur : list float)
  : result (list float * list float * list float * list float) :=
  let* k1 := stage t_curr cur in
  let* k2_vals := half_shift n_vars cur k1 in
  let* k2 := stage (t_curr + h / 2)%float k2_vals in
  let* k3_vals := half_shift n_vars cur k2 in
  let* k3 := stage (t_curr + h / 2)%float k3_vals in
  let* k4_vals := full_shift n_vars cur k3 in
  let* k4 := stage (t_curr + h)%float k4_vals in
  Ok (k1, k2, k3, k4).

(** The new value of [curr_vals[i]]. *)
Definition updated (cur k1 k2 k3 k4 : list float) (i : nat) : result float :=
  let* c := index cur i in
  let* a1 := index k1 i in
  let* a2 := index k2 i in
  let* a3 := index k3 i in
  let* a4 := index k4 i in
  Ok (c + (a1 + 2 * a2 + 2 * a3 + a4) / 6)%float.

(** The loop that stores the new values into [curr_vals], in place: an
    exception leaves the stores made so far. *)
Fixpoint update_loop (hp : heap) (cv : loc) (k1 k2 k3 k4 : list float)
    (indices : list nat) : heap * option exn :=
  match indices with
  | [] => (hp, None)
  | i :: rest =>
      match updated (hp !!! cv) k1 k2 k3 k4 i with
      | Ok v => update_loop (<[cv := <[i := v]> (hp !!! cv)]> hp) cv
                            k1 k2 k3 k4 rest
      | Err e => (hp, Some e)
      end
  end.

(** One [next()]: the store after it, the outcome and the new frame.
    A sample is the time and the location of a fresh copy of the state. *)
Definition system_next (hp : heap) (fr : system_frame)
  : outcome (float * loc) * heap * system_frame :=
  match fr with
  | YCreated =>
      let n_vars := length (hp !!! initial_conditions) in
      let '(cv, hp1) := alloc hp (hp !!! initial_conditions) in
      let '(y, hp2) := alloc hp1 (hp1 !!! cv) in
      (Yield (t0, y), hp2, YSuspended n_vars t0 cv 0)
  | YSuspended n_vars t_curr cv step =>
      if step <? n_steps then
        match stages n_vars t_curr (hp !!! cv) with
        | Ok (k1, k2, k3, k4) =>
            match update_loop hp cv k1 k2 k3 k4 (seq 0 n_vars) with
            | (hp1, None) =>
                let t' := (t_curr + h)%float in
                let '(y, hp2) := alloc hp1 (hp1 !!! cv) in
                (Yield (t', y), hp2, YSuspended n_vars t' cv (step + 1))
            | (hp1, Some e) => (Raise e, hp1, YFinished)
            end
        | Err e => (Raise e, hp, YFinished)
        end
      else (StopIteration, hp, YFinished)
  | YFinished => (StopIteration, hp, YFinished)
  end.

(** Pulling until the generator stops, at most [fuel] times; each sample
    is recorded with the contents of the yielded list when yielded. *)
Fixpoint system_pulls (fuel : nat) (hp : heap) (fr : system_frame)
  : list (float * loc * list float) * ending * heap :=
  match fuel with
  | O => ([], Pending, hp)
  | S fuel' =>
      match system_next hp fr with
      | (Yield (t, y), hp', fr') =>
          let '(l, e, hp'') := system_pulls fuel' hp' fr' in
          ((t, y, hp' !!! y) :: l, e, hp'')
      | (StopIteration, hp', _) => ([], Exhausted, hp')
      | (Raise e, hp', _) => ([], Raised e, hp')
      end
  end.

Definition run_system (hp : heap)
  : list (float * loc * list float) * ending * heap :=
  system_pulls (Z.to_nat n_steps + 2) hp YCreated.
End SolveSystem.

(** ** Text: [str.replace], [str] of a float *)

(** [s.replace(old, new)] for a non-empty [old]: occurrences are found
    from the left and do not overlap; [skip] counts the characters of a
    matched occurrence still to pass over. *)
Fixpoint replace_from (old new : string) (skip : nat) (s : string) : string :=
  match s with
  | EmptyString => EmptyString
  | String c s' =>
      match skip with
      | S k => replace_from old new k s'
      | O =>
          if String.prefix old s
          then new +:+ replace_from old new (String.length old - 1) s'
          else String c (replace_from old new 0 s')
      end
  end.

(** With an empty [old], [new] goes before every character and at the end. *)
Fixpoint intersperse (new s : string) : string :=
  match s with
  | EmptyString => new
  | String c s' => new +:+ String c (intersperse new s')
  end.

Definition replace (s old new : string) : string :=
  match old with
  | EmptyString => intersperse new s
  | _ => replace_from old new 0 s
  end.

Definition decimal (n : Z) : string :=
  DecimalString.NilZero.string_of_uint (N.to_uint (Z.to_N n)).

Fixpoint zeros (n : nat) : string :=
  match n with
  | O => ""
  | S k => String "0"%char (zeros k)
  end.

(** Trailing zeros of a digit count removed: [strip_zeros fuel d] gives the
    stripped number and how many zeros went. *)
Fixpoint strip_zeros (fuel : nat) (d : Z) : Z * Z :=
  match fuel with
  | O => (d, 0)
  | S k =>
      if (d mod 10 =? 0) && negb (d =? 0)
      then let (d', z) := strip_zeros k (d / 10) in (d', z + 1)
      else (d, 0)
  end.

Section ShortestDigits.
(** The float is [m * 2^e] with [m > 0], as [Prim2SF] gives it. All
    quantities are in units of [2^(e-2)]. *)
Variables (m e : Z).

Let E : Z := e - 2.
Let V : Z := 4 * m.
Let HU : Z := 2.
Let HL : Z := if (m =? 2 ^ 52) && (-1074 <? e) then 1 else 2.

(** [X * 2^E] and [d * 10^j] over a common denominator. *)
Definition bin_side (j X : Z) : Z := X * 2 ^ Z.max E 0 * 10 ^ Z.max (- j) 0.
Definition dec_side (j d : Z) : Z := d * 10 ^ Z.max j 0 * 2 ^ Z.max (- E) 0.

(** Does [d * 10^j] round to the float? The ends of the interval count
    when the mantissa is even. *)
Definition rounds_back (j d : Z) : bool :=
  let lo := bin_side j (V - HL) in
  let hi := bin_side j (V + HU) in
  let x := dec_side j d in
  if Z.even m then (lo <=? x) && (x <=? hi) else (lo <? x) && (x <? hi).

(** The position of the decimal point: [10^(p-1) <= v < 10^p]. *)
Fixpoint adjust_up (fuel : nat) (p : Z) : Z :=
  match fuel with
  | O => p
  | S k => if dec_side p 1 <=? bin_side p V then adjust_up k (p + 1) else p
  end.
Fixpoint adjust_down (fuel : nat) (p : Z) : Z :=
  match fuel with
  | O => p
  | S k => if bin_side (p - 1) V <? dec_side (p - 1) 1
           then adjust_down k (p - 1) else p
  end.
Definition decimal_point : Z :=
  let est := (Z.log2 m + e) * 30103 / 100000 in
  adjust_down 4 (adjust_up 4 est).

(** The nearest of the two [k]-digit neighbours that rounds back; of two
    equally near, the even one. *)
Definition candidate (p k : Z) : option (Z * Z) :=
  let j := p - k in
  let lower := bin_side j V / dec_side j 1 in
  let upper := lower + 1 in
  let ok_l := rounds_back j lower in
  let ok_u := rounds_back j upper in
  let dist_l := bin_side j V - dec_side j lower in
  let dist_u := dec_side j upper - bin_side j V in
  if ok_l && ok_u then
    Some (if (dist_l <? dist_u) || ((dist_l =? dist_u) && Z.even lower)
          then lower else upper, j)
  else if ok_l then Some (lower, j)
  else if ok_u then Some (upper, j)
  else None.

Fixpoint shortest_from (fuel : nat) (p k : Z) : Z * Z :=
  match fuel with
  | O => (V / 4, e)
  | S fuel' =>
      match candidate p k with
      | Some dj => dj
      | None => shortest_from fuel' p (k + 1)
      end
  end.

(** The digits, as a number without trailing zeros, and the position of
    the decimal point after them: the float is [0.digits * 10^point]. *)
Definition shortest_digits : Z * Z :=
  let '(d, j) := shortest_from 17 decimal_point 1 in
  let '(d', z) := strip_zeros 20 d in
  (d', Z.of_nat (String.length (decimal d')) + j + z).
End ShortestDigits.

(** The layout of [repr]: exponent form when the point is at or before
    [-4] or after [16]. *)
Definition layout (digits : string) (point : Z) : string :=
  let n := Z.of_nat (String.length digits) in
  if (point <=? -4) || (16 <? point) then
    let x := point - 1 in
    let mant := match digits with
                | String c EmptyString => digits
                | String c rest => String c (String "."%char rest)
                | EmptyString => digits
                end in
    let ex := decimal (Z.abs x) in
    mant +:+ "e" +:+ (if x <? 0 then "-" else "+")
         +:+ (if Z.abs x <? 10 then "0" else "") +:+ ex
  else if point <=? 0 then "0." +:+ zeros (Z.to_nat (- point)) +:+ digits
  else if n <=? point then digits +:+ zeros (Z.to_nat (point - n)) +:+ ".0"
  else String.substring 0 (Z.to_nat point) digits +:+ "."
       +:+ String.substring (Z.to_nat point) (Z.to_nat (n - point)) digits.

(** [str(x)] for a float: the shortest text that reads back as [x]. *)
Definition float_repr (x : float) : string :=
  match Prim2SF x with
  | S754_nan => "nan"
  | S754_infinity s => if s then "-inf" else "inf"
  | S754_zero s => if s then "-0.0" else "0.0"
  | S754_finite s m e =>
      let '(d, point) := shortest_digits (Z.pos m) e in
      (if s then "-" else "") +:+ layout (decimal d) point
  end.

(** ** Expressions: the fragment of Python that [eval] is modelled on

    Decimal number literals, names, parentheses, unary and binary [+] and
    [-], [*] and [/]. A text outside this fragment evaluates to
    [Err NotModelled]: nothing is claimed about it. *)

Inductive binop : Type := Add | Sub | Mul | Div.

Inductive expr : Type :=
  | Const (v : value)
  | Name (id : string)
  | Neg (e : expr)
  | Pos (e : expr)
  | BinOp (op : binop) (l r : expr).

Inductive token : Type :=
  | TNumber (text : string)
  | TName (id : string)
  | TOp (op : binop)
  | TLParen
  | TRParen
  | TOther.

Definition is_digit (c : ascii) : bool :=
  let n := nat_of_ascii c in (48 <=? n)%nat && (n <=? 57)%nat.

Definition is_name_start (c : ascii) : bool :=
  let n := nat_of_ascii c in
  ((65 <=? n)%nat && (n <=? 90)%nat) || ((97 <=? n)%nat && (n <=? 122)%nat)
  || (n =? 95)%nat.

Definition is_exponent_mark (c : ascii) : bool :=
  (nat_of_ascii c =? 101)%nat || (nat_of_ascii c =? 69)%nat.

(** What the scanner is in the middle of; the text collected so far is
    kept reversed. *)
Inductive scan_state : Type :=
  | Between
  | InNumber (rev_text : list ascii)
  | InName (rev_text : list ascii).

Definition text_of (rev_text : list ascii) : string :=
  String.string_of_list_ascii (rev rev_text).

Definition flush (st : scan_state) : list token :=
  match st with
  | Between => []
  | InNumber r => [TNumber (text_of r)]
  | InName r => [TName (text_of r)]
  end.

Definition punct (c : ascii) : token :=
  match c with
  | "+"%char => TOp Add
  | "-"%char => TOp Sub
  | "*"%char => TOp Mul
  | "/"%char => TOp Div
  | "("%char => TLParen
  | ")"%char => TRParen
  | _ => TOther
  end.

(** The scanner: a number takes digits, points, letters and a sign that
    follows its exponent mark (whether the text taken is a literal is
    decided afterwards); a name takes letters, digits and underscores. *)
Fixpoint scan (st : scan_state) (s : string) : list token :=
  match s with
  | EmptyString => flush st
  | String c s' =>
      let fresh :=
        if is_digit c || (nat_of_ascii c =? 46)%nat then scan (InNumber [c]) s'
        else if is_name_start c then scan (InName [c]) s'
        else if (nat_of_ascii c =? 32)%nat then scan Between s'
        else punct c :: scan Between s' in
      match st with
      | Between => fresh
      | InName r =>
          if is_name_start c || is_digit c then scan (InName (c :: r)) s'
          else flush st ++ fresh
      | InNumber r =>
          let after_mark := match r with
                            | d :: _ => is_exponent_mark d
                            | [] => false
                            end in
          if is_digit c || (nat_of_ascii c =? 46)%nat || is_name_start c
             || (after_mark && ((nat_of_ascii c =? 43)%nat
                                || (nat_of_ascii c =? 45)%nat))
          then scan (InNumber (c :: r)) s'
          else flush st ++ fresh
      end
  end.

(** The doubled operators [**] and [//] are operators of their own. *)
Fixpoint has_doubled_op (s : string) : bool :=
  match s with
  | String c ((String d _) as s') =>
      (((nat_of_ascii c =? 42)%nat && (nat_of_ascii d =? 42)%nat)
       || ((nat_of_ascii c =? 47)%nat && (nat_of_ascii d =? 47)%nat))
      || has_doubled_op s'
  | _ => false
  end.

Definition keywords : list string :=
  ["False"; "None"; "True"; "and"; "as"; "assert"; "async"; "await";
   "break"; "class"; "continue"; "def"; "del"; "elif"; "else"; "except";
   "finally"; "for"; "from"; "global"; "if"; "import"; "in"; "is";
   "lambda"; "nonlocal"; "not"; "or"; "pass"; "raise"; "return"; "try";
   "while"; "with"; "yield"].

(** *** Number literals *)

Fixpoint take_digits (s : string) : list ascii * string :=
  match s with
  | String c s' =>
      if is_digit c then let (ds, rest) := take_digits s' in (c :: ds, rest)
      else ([], s)
  | EmptyString => ([], s)
  end.

Definition digits_value (ds : list ascii) : Z :=
  fold_left (fun acc c => 10 * acc + (Z.of_nat (nat_of_ascii c) - 48)) ds 0.

(** The value of a literal: digits, an optional fraction and an optional
    exponent. A decimal integer with a leading zero is not one, unless it
    is all zeros; nor is one of more than 4300 digits. *)
Definition literal_value (text : string) : option value :=
  let (ip, rest1) := take_digits text in
  let '(has_point, fp, rest2) :=
    match rest1 with
    | String "."%char r => let (fp, r') := take_digits r in (true, fp, r')
    | _ => (false, [], rest1)
    end in
  let exponent : option (option Z * string) :=
    match rest2 with
    | String c r =>
        if is_exponent_mark c then
          let '(neg, r1) :=
            match r with
            | String "-"%char r' => (true, r')
            | String "+"%char r' => (false, r')
            | _ => (false, r)
            end in
          let (ed, r2) := take_digits r1 in
          match ed with
          | [] => None
          | _ => Some (Some (if neg then - digits_value ed else digits_value ed), r2)
          end
        else Some (None, rest2)
    | EmptyString => Some (None, rest2)
    end in
  match exponent with
  | Some (ex, EmptyString) =>
      match ip, fp with
      | [], [] => None
      | _, _ =>
          match has_point, ex with
          | false, None =>
              match ip with
              | "0"%char :: _ :: _ =>
                  if digits_value ip =? 0 then Some (VInt 0) else None
              | _ => if (4300 <? length ip)%nat then None
                     else Some (VInt (digits_value ip))
              end
          | _, _ =>
              let mant := digits_value (ip ++ fp) in
              let ten := default 0 ex - Z.of_nat (length fp) in
              Some (VFloat (SF2Prim
                (if 0 <=? ten then round_ratio (mant * 10 ^ ten) 1
                 else round_ratio mant (Z.to_pos (10 ^ (- ten))))))
          end
      end
  | _ => None
  end.

(** *** Parsing

    Sums of products of signed atoms, operators of one level grouping to
    the left. Each function returns the expression read and the tokens
    left; [fuel] bounds the depth of the descent. An atom followed by an
    opening parenthesis is a call, which is outside the fragment. *)

Definition atom_end (e : expr) (ts : list token) : option (expr * list token) :=
  match ts with
  | TLParen :: _ => None
  | _ => Some (e, ts)
  end.

Fixpoint parse_sum (fuel : nat) (ts : list token)
  : option (expr * list token) :=
  match fuel with
  | O => None
  | S fuel' =>
      match parse_product fuel' ts with
      | Some (l, ts1) => sum_rest fuel' l ts1
      | None => None
      end
  end
with sum_rest (fuel : nat) (l : expr) (ts : list token)
  : option (expr * list token) :=
  match fuel with
  | O => None
  | S fuel' =>
      match ts with
      | TOp Add :: ts1 =>
          match parse_product fuel' ts1 with
          | Some (r, ts2) => sum_rest fuel' (BinOp Add l r) ts2
          | None => None
          end
      | TOp Sub :: ts1 =>
          match parse_product fuel' ts1 with
          | Some (r, ts2) => sum_rest fuel' (BinOp Sub l r) ts2
          | None => None
          end
      | _ => Some (l, ts)
      end
  end
with parse_product (fuel : nat) (ts : list token)
  : option (expr * list token) :=
  match fuel with
  | O => None
  | S fuel' =>
      match parse_unary fuel' ts with
      | Some (l, ts1) => product_rest fuel' l ts1
      | None => None
      end
  end
with product_rest (fuel : nat) (l : expr) (ts : list token)
  : option (expr * list token) :=
  match fuel with
  | O => None
  | S fuel' =>
      match ts with
      | TOp Mul :: ts1 =>
          match parse_unary fuel' ts1 with
          | Some (r, ts2) => product_rest fuel' (BinOp Mul l r) ts2
          | None => None
          end
      | TOp Div :: ts1 =>
          match parse_unary fuel' ts1 with
          | Some (r, ts2) => product_rest fuel' (BinOp Div l r) ts2
          | None => None
          end
      | _ => Some (l, ts)
      end
  end
with parse_unary (fuel : nat) (ts : list token)
  : option (expr * list token) :=
  match fuel with
  | O => None
  | S fuel' =>
      match ts with
      | TOp Sub :: ts1 =>
          match parse_unary fuel' ts1 with
          | Some (e, ts2) => Some (Neg e, ts2)
          | None => None
          end
      | TOp Add :: ts1 =>
          match parse_unary fuel' ts1 with
          | Some (e, ts2) => Some (Pos e, ts2)
          | None => None
          end
      | TNumber text :: ts1 =>
          match literal_value text with
          | Some v => atom_end (Const v) ts1
          | None => None
          end
      | TName id :: ts1 =>
          if bool_decide (id ∈ keywords) then None else atom_end (Name id) ts1
      | TLParen :: ts1 =>
          match parse_sum fuel' ts1 with
          | Some (e, TRParen :: ts2) => atom_end e ts2
          | _ => None
          end
      | _ => None
      end
  end.

(** The expression that a text denotes, when the text is in the fragment. *)
Definition parse (text : string) : option expr :=
  if has_doubled_op text then None
  else
    let ts := scan Between text in
    match parse_sum (4 * length ts + 4) ts with
    | Some (e, []) => Some e
    | _ => None
    end.

(** *** Evaluation *)

(** The operands of a mixed operation as floats. *)
Definition as_float (v : value) : result float :=
  match v with
  | VFloat x => Ok x
  | VInt n => float_of_int n
  | VObject _ => Err TypeError
  end.

(** [a op b]. The quotient of two [int]s is the float nearest to it; a zero
    numerator over a negative divisor gives [-0.0]. *)
Definition apply_binop (op : binop) (a b : value) : result value :=
  match op, a, b with
  | Add, VInt m, VInt n => Ok (VInt (m + n))
  | Sub, VInt m, VInt n => Ok (VInt (m - n))
  | Mul, VInt m, VInt n => Ok (VInt (m * n))
  | Div, VInt m, VInt n =>
      if n =? 0 then Err ZeroDivisionError
      else if m =? 0 then Ok (VFloat (if n <? 0 then neg_zero else zero))
      else match round_ratio (m * Z.sgn n) (Z.to_pos (Z.abs n)) with
           | S754_infinity _ => Err OverflowError
           | sf => Ok (VFloat (SF2Prim sf))
           end
  | _, VObject _, _ => Err TypeError
  | _, _, VObject _ => Err TypeError
  | _, _, _ =>
      let* x := as_float a in
      let* y := as_float b in
      match op with
      | Add => Ok (VFloat (x + y))
      | Sub => Ok (VFloat (x - y))
      | Mul => Ok (VFloat (x * y))
      | Div => if is_zero y then Err ZeroDivisionError
               else Ok (VFloat (x / y))
      end
  end.

Definition negate (v : value) : result value :=
  match v with
  | VInt n => Ok (VInt (- n))
  | VFloat x => Ok (VFloat (- x))
  | VObject _ => Err TypeError
  end.

Definition plus (v : value) : result value :=
  match v with
  | VObject _ => Err TypeError
  | _ => Ok v
  end.

(** A dictionary used as the globals of [eval]: the binding made last
    comes first. *)
Definition env : Type := list (string * value).

Fixpoint env_get (globals : env) (id : string) : option value :=
  match globals with
  | [] => None
  | (k, v) :: rest => if String.eqb k id then Some v else env_get rest id
  end.

(** The names of the interpreter's [builtins] module whose objects raise
    [TypeError] in arithmetic (functions, classes, constants that are not
    numbers): [eval] looks a name up in its globals, then there. *)
Definition builtin_objects : list string :=
  ["ArithmeticError"; "AssertionError"; "AttributeError"; "BaseException";
   "BlockingIOError"; "BrokenPipeError"; "BufferError"; "BytesWarning";
   "ChildProcessError"; "ConnectionAbortedError"; "ConnectionError";
   "ConnectionRefusedError"; "ConnectionResetError"; "DeprecationWarning";
   "EOFError"; "Ellipsis"; "EnvironmentError"; "Exception";
   "FileExistsError"; "FileNotFoundError"; "FloatingPointError";
   "FutureWarning"; "GeneratorExit"; "IOError"; "ImportError";
   "ImportWarning"; "IndentationError"; "IndexError"; "InterruptedError";
   "IsADirectoryError"; "KeyError"; "KeyboardInterrupt"; "LookupError";
   "MemoryError"; "ModuleNotFoundError"; "NameError"; "NotADirectoryError";
   "NotImplemented"; "NotImplementedError"; "OSError"; "OverflowError";
   "PendingDeprecationWarning"; "PermissionError"; "ProcessLookupError";
   "RecursionError"; "ReferenceError"; "ResourceWarning"; "RuntimeError";
   "RuntimeWarning"; "StopAsyncIteration"; "StopIteration"; "SyntaxError";
   "SyntaxWarning"; "SystemError"; "SystemExit"; "TabError"; "TimeoutError";
   "TypeError"; "UnboundLocalError"; "UnicodeDecodeError";
   "UnicodeEncodeError"; "UnicodeError"; "UnicodeTranslateError";
   "UnicodeWarning"; "UserWarning"; "ValueError"; "Warning";
   "ZeroDivisionError"; "__build_class__"; "__import__"; "abs"; "all";
   "any"; "ascii"; "bin"; "bool"; "breakpoint"; "bytearray"; "bytes";
   "callable"; "chr"; "classmethod"; "compile"; "complex"; "delattr";
   "dict"; "dir"; "divmod"; "enumerate"; "eval"; "exec"; "filter"; "float";
   "format"; "frozenset"; "getattr"; "globals"; "hasattr"; "hash"; "hex";
   "id"; "input"; "int"; "isinstance"; "issubclass"; "iter"; "len"; "list";
   "locals"; "map"; "max"; "memoryview"; "min"; "next"; "object"; "oct";
   "open"; "ord"; "pow"; "print"; "property"; "range"; "repr"; "reversed";
   "round"; "set"; "setattr"; "slice"; "sorted"; "staticmethod"; "str";
   "sum"; "super"; "tuple"; "type"; "vars"; "zip"].

(** Names of [builtins] that Python resolves and that are left out here:
    those whose objects take part in arithmetic ([__debug__] is a [bool]
    that depends on how the interpreter was started, the dunder texts are
    [str]) and those that only some interpreters define. Looking one up
    gives [Err NotModelled]; the statements below say so where a name of
    this list could matter. *)
Definition builtin_others : list string :=
  ["__debug__"; "__doc__"; "__loader__"; "__name__"; "__package__";
   "__spec__"; "__builtins__"; "BaseExceptionGroup"; "ExceptionGroup";
   "EncodingWarning"; "PythonFinalizationError"; "WindowsError"; "aiter";
   "anext"; "copyright"; "credits"; "exit"; "help"; "license"; "quit"].

Definition lookup_name (globals : env) (id : string) : result value :=
  match env_get globals id with
  | Some v => Ok v
  | None =>
      if bool_decide (id ∈ builtin_objects) then Ok (VObject id)
      else if bool_decide (id ∈ builtin_others) then Err NotModelled
      else Err (NameError id)
  end.

(** Operands are evaluated left to right; the first exception ends the
    evaluation. *)
Fixpoint eval_expr (globals : env) (e : expr) : result value :=
  match e with
  | Const v => Ok v
  | Name id => lookup_name globals id
  | Neg e1 => let* v := eval_expr globals e1 in negate v
  | Pos e1 => let* v := eval_expr globals e1 in plus v
  | BinOp op l r =>
      let* a := eval_expr globals l in
      let* b := eval_expr globals r in
      apply_binop op a b
  end.

(** [eval(text, globals)] *)
Definition eval (text : string) (globals : env) : result value :=
  match parse text with
  | Some e => eval_expr globals e
  | None => Err NotModelled
  end.

(** ** PopulationModels: the registry

    An entry of [self.models]. The entries that only the display uses
    (names, descriptions, formulas in TeX, ranges) are left out. *)
Record model_info : Type := {
  equations : list string;
  parameters : list string;
  param_defaults : list value;
  initial_conditions : list string;
  ic_defaults : list value;
  variables : list string;
  type : string
}.

Set Warnings "-inexact-float".

Definition logistic : model_info := {|
  equations := ["r*x*(1 - x/K)"];
  parameters := ["r"; "K"];
  param_defaults := [VFloat 0.5; VInt 100];
  initial_conditions := ["x0"];
  ic_defaults := [VInt 10];
  variables := ["x"];
  type := "single"
|}.

Definition lotka_volterra : model_info := {|
  equations := ["a*x - b*x*y"; "c*x*y - d*y"];
  parameters := ["a"; "b"; "c"; "d"];
  param_defaults := [VFloat 1.0; VFloat 0.5; VFloat 0.3; VFloat 0.8];
  initial_conditions := ["x0"; "y0"];
  ic_defaults := [VInt 10; VInt 5];
  variables := ["x"; "y"];
  type := "system"
|}.

Definition competition : model_info := {|
  equations := ["r1*x*(1 - (x + alpha*y)/K1)"; "r2*y*(1 - (y + beta*x)/K2)"];
  parameters := ["r1"; "r2"; "K1"; "K2"; "alpha"; "beta"];
  param_defaults := [VFloat 1.0; VFloat 0.8; VInt 100; VInt 80;
                     VFloat 0.5; VFloat 0.6];
  initial_conditions := ["x0"; "y0"];
  ic_defaults := [VInt 20; VInt 15];
  variables := ["x"; "y"];
  type := "system"
|}.

Definition sir : model_info := {|
  equations := ["-beta*S*I/N"; "beta*S*I/N - gamma*I"; "gamma*I"];
  parameters := ["beta"; "gamma"; "N"];
  param_defaults := [VFloat 0.3; VFloat 0.1; VInt 1000];
  initial_conditions := ["S0"; "I0"; "R0"];
  ic_defaults := [VInt 990; VInt 10; VInt 0];
  variables := ["S"; "I"; "R"];
  type := "system"
|}.

Definition metapopulation : model_info := {|
  equations := ["r1*x*(1 - x/K1) + m*(y - x)"; "r2*y*(1 - y/K2) + m*(x - y)"];
  parameters := ["r1"; "r2"; "K1"; "K2"; "m"];
  param_defaults := [VFloat 0.8; VFloat 0.6; VInt 100; VInt 80; VFloat 0.1];
  initial_conditions := ["x0"; "y0"];
  ic_defaults := [VInt 50; VInt 30];
  variables := ["x"; "y"];
  type := "system"
|}.

(** [self.models] as [__init__] builds it: keys in the order written. *)
Definition models : list (string * model_info) :=
  [("logistic", logistic); ("lotka_volterra", lotka_volterra);
   ("competition", competition); ("sir", sir);
   ("metapopulation", metapopulation)].

(** [d[key]] for a dictionary kept as a list of items. *)
Fixpoint dict_get {A : Type} (d : list (string * A)) (key : string) : option A :=
  match d with
  | [] => None
  | (k, v) :: rest => if String.eqb k key then Some v else dict_get rest key
  end.

(** ** AnimatedPopulationGUI.create_model_functions *)

Definition np : value := VObject "np".

(** [lambda t, x, eq=eq_eval: eval(eq, {"t": t, "x": x, "np": np})]. A
    third positional argument would be taken for [eq], and [eval] of a
    float raises [TypeError], as does any other number of arguments. *)
Definition lambda_x (eq : string) : callable :=
  fun args =>
    match args with
    | [t; x] => eval eq [("t", VFloat t); ("x", VFloat x); ("np", np)]
    | _ => Err TypeError
    end.

(** [lambda t, x, y, eq=eq_eval: eval(eq, {"t": t, "x": x, "y": y, "np": np})] *)
Definition lambda_xy (eq : string) : callable :=
  fun args =>
    match args with
    | [t; x; y] =>
        eval eq [("t", VFloat t); ("x", VFloat x); ("y", VFloat y); ("np", np)]
    | _ => Err TypeError
    end.

(** [lambda t, S, I, R, eq=eq_eval: eval(eq, {"t": t, "S": S, "I": I, "R": R, "np": np})] *)
Definition lambda_SIR (eq : string) : callable :=
  fun args =>
    match args with
    | [t; s; i; r] =>
        eval eq [("t", VFloat t); ("S", VFloat s); ("I", VFloat i);
                 ("R", VFloat r); ("np", np)]
    | _ => Err TypeError
    end.

(** The loop [for i, var in enumerate(var_names): local_vars[var] = args[i]]
    from position [i] on; a later store to a key replaces the earlier. *)
Fixpoint bind_vars (var_names : list string) (args : list float) (i : nat)
    (local_vars : env) : result env :=
  match var_names with
  | [] => Ok local_vars
  | var :: rest =>
      let* a := index args i in
      bind_vars rest args (S i) ((var, VFloat a) :: local_vars)
  end.

(** [make_func(eq_str)]: the function [func(t, *args)]. *)
Definition make_func (var_names : list string) (eq_str : string) : callable :=
  fun all_args =>
    match all_args with
    | [] => Err TypeError
    | t :: args =>
        let* local_vars := bind_vars var_names args 0 [("np", np); ("t", VFloat t)] in
        eval eq_str local_vars
    end.

(** The text of an equation after the loop over [parameters.items()]. *)
Definition substitute (parameters : list (string * float)) (eq_str : string)
  : string :=
  fold_left (fun eq_eval '(param, value) =>
               replace eq_eval param (float_repr value)) parameters eq_str.

Definition create_model_functions (models : list (string * model_info))
    (model_key : string) (parameters : list (string * float))
  : result (list callable) :=
  match dict_get models model_key with
  | None => Err (KeyError model_key)
  | Some model_info =>
      Ok (map (fun eq_str =>
                 let eq_eval := substitute parameters eq_str in
                 if String.eqb (type model_info) "single" then lambda_x eq_eval
                 else
                   let var_names := variables model_info in
                   if (length var_names =? 2)%nat then lambda_xy eq_eval
                   else if (length var_names =? 3)%nat then lambda_SIR eq_eval
                   else make_func var_names eq_eval)
              (equations model_info))
  end.

(** ** The scheme on pure right-hand sides

    A right-hand side that is a mathematical function of the time and the
    state vector, and the callable that it is as a Python function. *)
Definition pure_function : Type := float -> list float -> float.

Definition lift (g : pure_function) : callable :=
  fun args =>
    match args with
    | [] => Err TypeError
    | t :: xs => Ok (VFloat (g t xs))
    end.

Definition lift_scalar (g : float -> float -> float) : callable :=
  fun args =>
    match args with
    | [t; x] => Ok (VFloat (g t x))
    | _ => Err TypeError
    end.

Section Scheme.
Variables (gs : list pure_function) (h t : float) (x : list float).

(** [h * g(t', x')] for every component [g], all at the same state [x']. *)
Definition slopes (t' : float) (x' : list float) : list float :=
  map (fun g : pure_function => (h * g t' x')%float) gs.

Definition scheme_k1 : list float := slopes t x.
Definition scheme_k2 : list float :=
  slopes (t + h / 2)%float
         (zip_with (fun xi k => (xi + k / 2)%float) x scheme_k1).
Definition scheme_k3 : list float :=
  slopes (t + h / 2)%float
         (zip_with (fun xi k => (xi + k / 2)%float) x scheme_k2).
Definition scheme_k4 : list float :=
  slopes (t + h)%float (zip_with (fun xi k => (xi + k)%float) x scheme_k3).

(** [k1 + 2*k2 + 2*k3 + k4], component by component. *)
Definition weighted_sum (k1 k2 k3 k4 : list float) : list float :=
  zip_with (fun s a4 => (s + a4)%float)
    (zip_with (fun s a3 => (s + 2 * a3)%float)
       (zip_with (fun a1 a2 => (a1 + 2 * a2)%float) k1 k2) k3) k4.

Definition scheme_state : list float :=
  zip_with (fun xi s => (xi + s / 6)%float) x
           (weighted_sum scheme_k1 scheme_k2 scheme_k3 scheme_k4).

Definition scheme_time : float := (t + h)%float.
End Scheme.

(** A callable that, on a time and [n] state values, returns a value that
    [h] can be multiplied with. *)
Definition total_on (h : float) (n : nat) (f : callable) : Prop :=
  forall t xs, length xs = n ->
    exists v k, f (t :: xs) = Ok v /\ float_mul_value h v = Ok k.

(** ** The system generator seen through the contents of its list

    [update_loop] on the contents of [curr_vals] alone. *)
Fixpoint update_cell (cur k1 k2 k3 k4 : list float) (indices : list nat)
  : list float * option exn :=
  match indices with
  | [] => (cur, None)
  | i :: rest =>
      match updated cur k1 k2 k3 k4 i with
      | Ok v => update_cell (<[i := v]> cur) k1 k2 k3 k4 rest
      | Err e => (cur, Some e)
      end
  end.

Inductive pure_frame : Type :=
  | PCreated
  | PSuspended (n_vars : nat) (t_curr : float) (curr_vals : list float)
               (step : Z)
  | PFinished.

Section Contents.
Variables (functions : list callable) (t0 : float) (init : list float)
          (h : float) (n_steps : Z).

(** One [next()] of a generator whose argument list held [init] when it
    started, as a function of the contents of [curr_vals]. *)
Definition pure_next (fr : pure_frame)
  : outcome (float * list float) * pure_frame :=
  match fr with
  | PCreated => (Yield (t0, init), PSuspended (length init) t0 init 0)
  | PSuspended n_vars t_curr cur step =>
      if step <? n_steps then
        match stages functions h n_vars t_curr cur with
        | Ok (k1, k2, k3, k4) =>
            match update_cell cur k1 k2 k3 k4 (seq 0 n_vars) with
            | (cur', None) =>
                let t' := (t_curr + h)%float in
                (Yield (t', cur'), PSuspended n_vars t' cur' (step + 1))
            | (_, Some e) => (Raise e, PFinished)
            end
        | Err e => (Raise e, PFinished)
        end
      else (StopIteration, PFinished)
  | PFinished => (StopIteration, PFinished)
  end.

Fixpoint pure_trace (n : nat) (fr : pure_frame)
  : list (outcome (float * list float)) :=
  match n with
  | O => []
  | S n' => let (o, fr') := pure_next fr in o :: pure_trace n' fr'
  end.
End Contents.

(** The contents that a frame stands for in a store. *)
Definition snapshot (hp : heap) (fr : system_frame) : pure_frame :=
  match fr with
  | YCreated => PCreated
  | YSuspended n_vars t_curr cv step =>
      PSuspended n_vars t_curr (hp !!! cv) step
  | YFinished => PFinished
  end.

(** The list that only the generator holds, once it has started. *)
Definition private (fr : system_frame) : option loc :=
  match fr with
  | YSuspended _ _ cv _ => Some cv
  | _ => None
  end.

Definition well_formed (hp : heap) (fr : system_frame) : Prop :=
  match fr with
  | YSuspended _ _ cv _ => (cv < length hp)%nat
  | _ => True
  end.

(** ** Two generators of the same call on one store *)

Section Interleaving.
Variables (functions : list callable) (t0 : float)
          (initial_conditions : loc) (h : float) (n_steps : Z).

(** What the consumer sees of one [next()]: the time and the contents of
    the list yielded. *)
Definition observed (hp : heap) (o : outcome (float * loc))
  : outcome (float * list float) :=
  match o with
  | Yield (t, y) => Yield (t, hp !!! y)
  | StopIteration => StopIteration
  | Raise e => Raise e
  end.

(** [n] pulls from one generator. *)
Fixpoint system_trace (n : nat) (hp : heap) (fr : system_frame)
  : list (outcome (float * list float)) :=
  match n with
  | O => []
  | S n' =>
      let '(o, hp', fr') :=
        system_next functions t0 initial_conditions h n_steps hp fr in
      observed hp' o :: system_trace n' hp' fr'
  end.

(** Pulls from two generators in the order of [schedule]: [true] pulls
    from the first, [false] from the second. *)
Fixpoint interleaved (schedule : list bool) (hp : heap)
    (fr1 fr2 : system_frame)
  : list (outcome (float * list float))
    * list (outcome (float * list float)) :=
  match schedule with
  | [] => ([], [])
  | true :: rest =>
      let '(o, hp', fr1') :=
        system_next functions t0 initial_conditions h n_steps hp fr1 in
      let (l1, l2) := interleaved rest hp' fr1' fr2 in
      (observed hp' o :: l1, l2)
  | false :: rest =>
      let '(o, hp', fr2') :=
        system_next functions t0 initial_conditions h n_steps hp fr2 in
      let (l1, l2) := interleaved rest hp' fr1 fr2' in
      (l1, observed hp' o :: l2)
  end.
End Interleaving.

(** ** Names in an expression *)

Fixpoint names_of (e : expr) : list string :=
  match e with
  | Const _ => []
  | Name id => [id]
  | Neg e1 | Pos e1 => names_of e1
  | BinOp _ l r => names_of l ++ names_of r
  end.


(** ** Inputs of the examples *)

(** The logistic right-hand side with the default parameters, and with
    [K] left out of the mapping, and with [K = 0.0]. *)
Definition logistic_rhs (parameters : list (string * float)) : callable :=
  match create_model_functions models "logistic" parameters with
  | Ok (f :: _) => f
  | _ => fun _ => Err NotModelled
  end.

Definition logistic_defaults : list (string * float) :=
  [("r", 0.5%float); ("K", 100%float)].
Definition logistic_without_K : list (string * float) := [("r", 0.5%float)].
Definition logistic_zero_K : list (string * float) :=
  [("r", 0.5%float); ("K", 0%float)].

(** A model of one equation in which the parameter name [r] is a prefix
    of the parameter name [r1], and a registry that holds it. *)
Definition prefixed : model_info := {|
  equations := ["r1*x"];
  parameters := ["r"; "r1"];
  param_defaults := [VFloat 0.5; VFloat 2.0];
  initial_conditions := ["x0"];
  ic_defaults := [VInt 1];
  variables := ["x"];
  type := "single"
|}.

Definition prefixed_values : list (string * float) :=
  [("r", 0.5%float); ("r1", 2%float)].




Definition lotka_volterra_defaults : list (string * float) :=
  [("a", 1.0%float); ("b", 0.5%float); ("c", 0.3%float); ("d", 0.8%float)].

Definition lotka_volterra_rhs : list callable :=
  match create_model_functions models "lotka_volterra"
                               lotka_volterra_defaults with
  | Ok fs => fs
  | Err _ => []
  end.

(** ** Definitions used in the statements *)

(** [e] is raised by a call of [f], or by the product of [h] and what a
    call of [f] returned. *)
Definition raised_by (f : callable) (h : float) (e : exn) : Prop :=
  exists args,
    f args = Err e \/ exists v, f args = Ok v /\ float_mul_value h v = Err e.

(** A frame of a generator in a store in which the argument list, at
    [ic], holds [init] and is not the generator's own list. *)
Definition sound (ic : loc) (init : list float) (hp : heap)
    (fr : system_frame) : Prop :=
  well_formed hp fr /\ (ic < length hp)%nat /\ private fr <> Some ic
  /\ hp !!! ic = init.

(** Every name of the equation [eq] is a variable or a parameter of [m]. *)
Definition names_declared (m : model_info) (eq : string) : bool :=
  match parse eq with
  | Some e =>
      forallb (fun id => bool_decide (id ∈ variables m ++ parameters m))
              (names_of e)
  | None => false
  end.

Definition consistent (m : model_info) : bool :=
  (length (variables m) =? length (equations m))%nat
  && (length (equations m) =? length (initial_conditions m))%nat
  && forallb (names_declared m) (equations m).

(** ** The models as the interface first shows them

    The mapping of parameters when no entry has been edited: every
    parameter with its default, as a float. *)
Definition default_mapping (m : model_info) : list (string * float) :=
  match mapM as_float (param_defaults m) with
  | Ok vs => zip (parameters m) vs
  | Err _ => []
  end.

Definition default_rhs (model_key : string) : list callable :=
  match dict_get models model_key with
  | Some m =>
      match create_model_functions models model_key (default_mapping m) with
      | Ok fs => fs
      | Err _ => []
      end
  | None => []
  end.

(** The times [t], [t + h], [(t + h) + h], ...: each the sum of the one
    before and [h]. *)
Fixpoint times (t h : float) (n : nat) : list float :=
  match n with
  | O => []
  | S n' => t :: times (t + h)%float h n'
  end.

(** ** AnimatedPopulationGUI: the animation

    The exceptions met at the level of the interface: those of the solver
    and of the evaluation, and [ValueError] (of [float] on a text that is
    no number, of [int] on a NaN). *)
Inductive failure : Type :=
  | Python (e : exn)
  | ValueError.

Inductive attempt (A : Type) : Type :=
  | Done (a : A)
  | Failed (e : failure).
Arguments Done {A} a.
Arguments Failed {A} e.

Definition and_then {A B : Type} (r : attempt A) (k : A -> attempt B)
  : attempt B :=
  match r with
  | Done a => k a
  | Failed e => Failed e
  end.

Notation "'try*' x ':=' r 'in' k" := (and_then r (fun x => k))
  (at level 10, x pattern, r at level 100, k at level 200).

(** A generator object: the call that made it and its frame. *)
Inductive generator : Type :=
  | SingleGenerator (f : callable) (t0 x0 h : float) (n_steps : Z)
                    (fr : single_frame)
  | SystemGenerator (functions : list callable) (t0 : float)
                    (initial_conditions : loc) (h : float) (n_steps : Z)
                    (fr : system_frame).

(** The second component of a sample: a float, or a list object. *)
Inductive yielded : Type :=
  | Number (x : float)
  | ListAt (y : loc).

(** [next(generator)] *)
Definition next (hp : heap) (gen : generator)
  : outcome (float * yielded) * heap * generator :=
  match gen with
  | SingleGenerator f t0 x0 h n_steps fr =>
      let (o, fr') := single_next f t0 x0 h n_steps fr in
      (match o with
       | Yield (t, x) => Yield (t, Number x)
       | StopIteration => StopIteration
       | Raise e => Raise e
       end, hp, SingleGenerator f t0 x0 h n_steps fr')
  | SystemGenerator functions t0 ic h n_steps fr =>
      let '(o, hp', fr') := system_next functions t0 ic h n_steps hp fr in
      (match o with
       | Yield (t, y) => Yield (t, ListAt y)
       | StopIteration => StopIteration
       | Raise e => Raise e
       end, hp', SystemGenerator functions t0 ic h n_steps fr')
  end.

(** What the status line says: ready, the step reached, finished, the
    exception met, paused. *)
Inductive status_text : Type :=
  | Ready
  | Running (current_step max_steps : Z) (t : float)
  | Completed
  | Broken (e : failure)
  | Paused.

(** The attributes of the interface object that the modelled methods read
    or write; [objects] is the store of the list objects that the
    generator works on. Widgets other than the entries and the status
    line are left out. *)
Record gui : Type := {
  current_model : string;
  param_entries : list (string * string);
  ic_entries : list (string * string);
  time_entry : string;
  step_entry : string;
  is_playing : bool;
  current_step : Z;
  max_steps : Z;
  solver_generator : option generator;
  time_data : list float;
  population_data : list (list float);
  phase_data : list (list float);
  objects : heap;
  status_label : status_text
}.

Definition set_is_playing (g : gui) (v : bool) : gui :=
  {| current_model := current_model g; param_entries := param_entries g;
     ic_entries := ic_entries g; time_entry := time_entry g;
     step_entry := step_entry g; is_playing := v;
     current_step := current_step g; max_steps := max_steps g;
     solver_generator := solver_generator g; time_data := time_data g;
     population_data := population_data g; phase_data := phase_data g;
     objects := objects g; status_label := status_label g |}.

Definition set_current_step (g : gui) (v : Z) : gui :=
  {| current_model := current_model g; param_entries := param_entries g;
     ic_entries := ic_entries g; time_entry := time_entry g;
     step_entry := step_entry g; is_playing := is_playing g;
     current_step := v; max_steps := max_steps g;
     solver_generator := solver_generator g; time_data := time_data g;
     population_data := population_data g; phase_data := phase_data g;
     objects := objects g; status_label := status_label g |}.

Definition set_max_steps (g : gui) (v : Z) : gui :=
  {| current_model := current_model g; param_entries := param_entries g;
     ic_entries := ic_entries g; time_entry := time_entry g;
     step_entry := step_entry g; is_playing := is_playing g;
     current_step := current_step g; max_steps := v;
     solver_generator := solver_generator g; time_data := time_data g;
     population_data := population_data g; phase_data := phase_data g;
     objects := objects g; status_label := status_label g |}.

Definition set_generator (g : gui) (v : option generator) (hp : heap) : gui :=
  {| current_model := current_model g; param_entries := param_entries g;
     ic_entries := ic_entries g; time_entry := time_entry g;
     step_entry := step_entry g; is_playing := is_playing g;
     current_step := current_step g; max_steps := max_steps g;
     solver_generator := v; time_data := time_data g;
     population_data := population_data g; phase_data := phase_data g;
     objects := hp; status_label := status_label g |}.

Definition set_data (g : gui) (ts : list float) (ps phs : list (list float))
  : gui :=
  {| current_model := current_model g; param_entries := param_entries g;
     ic_entries := ic_entries g; time_entry := time_entry g;
     step_entry := step_entry g; is_playing := is_playing g;
     current_step := current_step g; max_steps := max_steps g;
     solver_generator := solver_generator g; time_data := ts;
     population_data := ps; phase_data := phs;
     objects := objects g; status_label := status_label g |}.

Definition set_status (g : gui) (v : status_text) : gui :=
  {| current_model := current_model g; param_entries := param_entries g;
     ic_entries := ic_entries g; time_entry := time_entry g;
     step_entry := step_entry g; is_playing := is_playing g;
     current_step := current_step g; max_steps := max_steps g;
     solver_generator := solver_generator g; time_data := time_data g;
     population_data := population_data g; phase_data := phase_data g;
     objects := objects g; status_label := v |}.

(** [stop_animation] *)
Definition stop_animation (g : gui) : gui :=
  set_status (set_current_step (set_is_playing g false) 0) Ready.

(** [pause_animation] *)
Definition pause_animation (g : gui) : gui :=
  set_status (set_is_playing g false) Paused.

(** The loop [for i, val in enumerate(values): population_data[i].append(val)]
    from index [i] on. *)
Fixpoint append_columns (columns : list (list float)) (i : nat)
    (values : list float) : list (list float) * option exn :=
  match values with
  | [] => (columns, None)
  | val :: rest =>
      match columns !! i with
      | Some column =>
          append_columns (<[i := column ++ [val]]> columns) (S i) rest
      | None => (columns, Some IndexError)
      end
  end.

(** The part of [animate_step] that stores a sample. *)
Definition store_sample (g : gui) (t : float) (values : yielded)
  : gui * option exn :=
  let time_data' := time_data g ++ [t] in
  match values with
  | ListAt y =>
      let vals := objects g !!! y in
      let fresh := if (length (population_data g) =? 0)%nat
                   then replicate (length vals) []
                   else population_data g in
      let (columns, raised) := append_columns fresh 0 vals in
      match raised with
      | Some e => (set_data g time_data' columns (phase_data g), Some e)
      | None =>
          let phase_data' :=
            match vals with
            | [v0; v1] => phase_data g ++ [[v0; v1]]
            | _ => phase_data g
            end in
          (set_data g time_data' columns phase_data', None)
      end
  | Number x =>
      let fresh := if (length (population_data g) =? 0)%nat
                   then [[]]
                   else population_data g in
      match fresh !! 0%nat with
      | Some column =>
          (set_data g time_data' (<[0%nat := column ++ [x]]> fresh)
                    (phase_data g), None)
      | None => (set_data g time_data' fresh (phase_data g), Some IndexError)
      end
  end.

(** [int(x)] for a float: towards zero. *)
Definition int_of_float (x : float) : attempt Z :=
  match Prim2SF x with
  | S754_nan => Failed ValueError
  | S754_infinity _ => Failed (Python OverflowError)
  | S754_zero _ => Done 0
  | S754_finite s m e =>
      let a := if 0 <=? e then Z.pos m * 2 ^ e else Z.pos m / 2 ^ (- e) in
      Done (if s then - a else a)
  end.

(** [a / b] for floats. *)
Definition float_div (a b : float) : attempt float :=
  if is_zero b then Failed (Python ZeroDivisionError) else Done (a / b)%float.

(** [d[key] = v] for a dictionary kept as a list of items: a key already
    there keeps its place. *)
Fixpoint dict_set {A : Type} (d : list (string * A)) (key : string) (v : A)
  : list (string * A) :=
  match d with
  | [] => [(key, v)]
  | (k, w) :: rest =>
      if String.eqb k key then (k, v) :: rest
      else (k, w) :: dict_set rest key v
  end.

Section Animation.
  (** What the modelled methods take from outside: [float] on the text of
      an entry ([None] for [ValueError]), and the two methods that draw,
      of which only the exception that they raise, if any, matters here;
      they draw from the three lists of data. *)
  Variable float_of_text : string -> option float.
  Variable setup_animation_plots : model_info -> option failure.
  Variable update_animation_plots :
    list float -> list (list float) -> list (list float) -> option failure.

(** [float(entries[key].get())] *)
Definition entry_value (entries : list (string * string)) (key : string)
  : attempt float :=
  match dict_get entries key with
  | None => Failed (Python (KeyError key))
  | Some text =>
      match float_of_text text with
      | Some x => Done x
      | None => Failed ValueError
      end
  end.

Definition text_value (text : string) : attempt float :=
  match float_of_text text with
  | Some x => Done x
  | None => Failed ValueError
  end.

(** The loop that fills the dictionary [parameters]. *)
Fixpoint read_parameters (entries : list (string * string))
    (names : list string) (parameters : list (string * float))
  : attempt (list (string * float)) :=
  match names with
  | [] => Done parameters
  | param :: rest =>
      try* x := entry_value entries param in
      read_parameters entries rest (dict_set parameters param x)
  end.

(** The loop that fills the list [initial_conditions]. *)
Fixpoint read_initial_conditions (entries : list (string * string))
    (names : list string) : attempt (list float) :=
  match names with
  | [] => Done []
  | ic :: rest =>
      try* x := entry_value entries ic in
      try* xs := read_initial_conditions entries rest in
      Done (x :: xs)
  end.

(** [prepare_animation_data]: the state after it, and [Done tt] for
    [True], [Failed e] for [False] after the exception [e] was shown. *)
Definition prepare_animation_data (g : gui) : gui * attempt unit :=
  match dict_get models (current_model g) with
  | None => (g, Failed (Python (KeyError (current_model g))))
  | Some model_info =>
      match
        (try* parameters :=
           read_parameters (param_entries g) (parameters model_info) [] in
         try* initial_conditions :=
           read_initial_conditions (ic_entries g)
                                   (initial_conditions model_info) in
         try* time_end := text_value (time_entry g) in
         try* h := text_value (step_entry g) in
         try* q := float_div time_end h in
         try* n := int_of_float q in
         Done (parameters, initial_conditions, h, n))
      with
      | Failed e => (g, Failed e)
      | Done (parameters, initial_conditions, h, n) =>
          let g1 := set_max_steps g n in
          match create_model_functions models (current_model g) parameters with
          | Err e => (g1, Failed (Python e))
          | Ok functions =>
              let made :=
                if String.eqb (type model_info) "single" then
                  match functions, initial_conditions with
                  | f :: _, x0 :: _ =>
                      Some (SingleGenerator f 0 x0 h n SCreated, objects g1)
                  | _, _ => None
                  end
                else
                  let (ic, hp) := alloc (objects g1) initial_conditions in
                  Some (SystemGenerator functions 0 ic h n YCreated, hp) in
              match made with
              | None => (g1, Failed (Python IndexError))
              | Some (gen, hp) =>
                  let g2 := set_current_step
                              (set_data (set_generator g1 (Some gen) hp)
                                        [] [] []) 0 in
                  match setup_animation_plots model_info with
                  | Some e => (g2, Failed e)
                  | None => (g2, Done tt)
                  end
              end
          end
      end
  end.

(** [animate_step]: the state after it and the value returned. *)
Definition animate_step (g : gui) : gui * bool :=
  match solver_generator g with
  | None =>
      (set_status (stop_animation g) (Broken (Python TypeError)), false)
  | Some gen =>
      let '(o, hp, gen') := next (objects g) gen in
      let g0 := set_generator g (Some gen') hp in
      match o with
      | StopIteration => (set_status (stop_animation g0) Completed, false)
      | Raise e =>
          (set_status (stop_animation g0) (Broken (Python e)), false)
      | Yield (t, values) =>
          match store_sample g0 t values with
          | (g1, Some e) =>
              (set_status (stop_animation g1) (Broken (Python e)), false)
          | (g1, None) =>
              match update_animation_plots (time_data g1) (population_data g1)
                                           (phase_data g1) with
              | Some e => (set_status (stop_animation g1) (Broken e), false)
              | None =>
                  let g2 := set_current_step g1 (current_step g1 + 1) in
                  if max_steps g2 =? 0 then
                    (set_status (stop_animation g2)
                                (Broken (Python ZeroDivisionError)), false)
                  else
                    let g3 := set_status g2 (Running (current_step g2)
                                                     (max_steps g2) t) in
                    if max_steps g3 <=? current_step g3 then
                      (set_status (stop_animation g3) Completed, false)
                    else (g3, true)
              end
          end
      end
  end.

(** [animation_loop], called again by the timer as long as it asks for
    it, with no other event in between: [fuel] is the number of calls.
    The delay [int(50 / speed)] is left out: the speed comes from a
    scale over [0.1, 5.0]. *)
Fixpoint animation_loop (fuel : nat) (g : gui) : gui :=
  match fuel with
  | O => g
  | S fuel' =>
      if is_playing g then
        let (g', success) := animate_step g in
        if success then animation_loop fuel' g' else g'
      else g
  end.

(** [start_animation], which calls [animation_loop] once itself, with the
    [fuel] calls by the timer that follow. *)
Definition start_animation (fuel : nat) (g : gui) : gui :=
  if is_playing g then g
  else
    let (g1, prepared) :=
      if current_step g =? 0 then prepare_animation_data g
      else (g, Done tt) in
    match prepared with
    | Failed _ => g1
    | Done _ => animation_loop (S fuel) (set_is_playing g1 true)
    end.
End Animation.

(** ** AnimatedPopulationGUI.export_data_csv: the rows of data *)

Inductive cell : Type :=
  | Value (x : float)
  | Blank.

(** [pop_data[i] if i < len(pop_data) else ''] *)
Definition cell_at (i : nat) (pop_data : list float) : cell :=
  match pop_data !! i with
  | Some v => Value v
  | None => Blank
  end.

(** The rows passed to [writer.writerow] after the header. *)
Definition data_rows (time_data : list float)
    (population_data : list (list float)) : list (list cell) :=
  imap (fun i t => Value t :: map (cell_at i) population_data) time_data.

(** ** What a generator yields, as values *)

Definition contents (hp : heap) (values : yielded) : list float :=
  match values with
  | Number x => [x]
  | ListAt y => hp !!! y
  end.

(** The samples of the first [n] pulls, up to the first that yields
    nothing. *)
Fixpoint samples (n : nat) (hp : heap) (gen : generator)
  : list (float * list float) :=
  match n with
  | O => []
  | S n' =>
      match next hp gen with
      | (Yield (t, values), hp', gen') =>
          (t, contents hp' values) :: samples n' hp' gen'
      | _ => []
      end
  end.

(** The samples of the whole run of the call that made the generator. *)
Definition run_of (hp : heap) (gen : generator) : list (float * list float) :=
  match gen with
  | SingleGenerator f t0 x0 h n_steps _ =>
      map (fun s => (s.1, [s.2])) (run_single f t0 x0 h n_steps).1
  | SystemGenerator functions t0 ic h n_steps _ =>
      map (fun s => (s.1.1, s.2)) (run_system functions t0 ic h n_steps hp).1.1
  end.

Definition row_of (s : float * list float) : list cell :=
  Value s.1 :: map Value s.2.

(** A generator that has not been pulled from. *)
Definition fresh (hp : heap) (gen : generator) (n : Z) : Prop :=
  match gen with
  | SingleGenerator _ _ _ _ n_steps fr => fr = SCreated /\ n_steps = n
  | SystemGenerator _ _ ic _ n_steps fr =>
      fr = YCreated /\ n_steps = n /\ (ic < length hp)%nat
  end.

(** The first sample of a generator not yet pulled from: the arguments
    of the call that made it. *)
Definition initial_sample (hp : heap) (gen : generator)
  : float * list float :=
  match gen with
  | SingleGenerator _ t0 x0 _ _ _ => (t0, [x0])
  | SystemGenerator _ t0 ic _ _ _ => (t0, hp !!! ic)
  end.

(** ** The data collected, as samples *)

(** One value more at the end of every column. *)
Definition add_row (columns : list (list float)) (values : list float)
  : list (list float) :=
  zip_with (fun column v => column ++ [v]) columns values.

(** The [w] columns that hold the state vectors of the samples [R]. *)
Definition columns_of (w : nat) (R : list (float * list float))
  : list (list float) :=
  fold_left add_row (map snd R) (replicate w []).

(** The lists of data hold the samples [R], all of width [w]. *)
Definition collected (w : nat) (R : list (float * list float)) (g : gui)
  : Prop :=
  time_data g = map fst R
  /\ Forall (fun r => length r.2 = w) R
  /\ ((R = [] /\ population_data g = [])
      \/ population_data g = columns_of w R).

(** A generator whose samples have width [w]. *)
Definition gen_ok (w : nat) (hp : heap) (gen : generator) : Prop :=
  match gen with
  | SingleGenerator _ _ _ _ _ _ => w = 1%nat
  | SystemGenerator _ _ ic _ _ fr =>
      match fr with
      | YCreated => length (hp !!! ic) = w
      | YSuspended _ _ cv _ => (cv < length hp)%nat /\ length (hp !!! cv) = w
      | YFinished => True
      end
  end.

(** The state of an animation that plays: [k] steps made of [n], the
    samples [R] collected, the generator [gen] in the store [hp]. *)
Definition playing (w : nat) (n k : Z) (R : list (float * list float))
    (hp : heap) (gen : generator) (g : gui) : Prop :=
  collected w R g /\ solver_generator g = Some gen /\ objects g = hp
  /\ gen_ok w hp gen /\ max_steps g = n /\ current_step g = k
  /\ 0 <= k /\ is_playing g = true.

(** The number of samples that an animation at step [k] of [n] still
    takes. *)
Definition remaining (n k : Z) : nat := Z.to_nat (Z.max 1 (n - k)).

(** The width of the samples of a generator not yet pulled from. *)
Definition width (hp : heap) (gen : generator) : nat :=
  match gen with
  | SingleGenerator _ _ _ _ _ _ => 1%nat
  | SystemGenerator _ _ ic _ _ _ => length (hp !!! ic)
  end.

(** ** Inputs of the examples of the animation

    A reader of the decimal texts of the examples, drawing methods that
    raise nothing, and the interface as it first shows the logistic model,
    with a duration and a step. *)
Definition decimal_value (text : string) : option float :=
  match literal_value text with
  | Some (VFloat x) => Some x
  | Some (VInt n) =>
      match float_of_int n with
      | Ok x => Some x
      | Err _ => None
      end
  | _ => None
  end.

Definition no_failure_setup (m : model_info) : option failure := None.
Definition no_failure_update (ts : list float) (ps phs : list (list float))
  : option failure := None.

Definition logistic_gui (time_end step : string) : gui := {|
  current_model := "logistic";
  param_entries := [("r", "0.5"); ("K", "100")];
  ic_entries := [("x0", "10")];
  time_entry := time_end;
  step_entry := step;
  is_playing := false;
  current_step := 0;
  max_steps := 1000;
  solver_generator := None;
  time_data := [];
  population_data := [];
  phase_data := [];
  objects := [];
  status_label := Ready
|}.


(** ** The samples of a run of the scheme

    One advance of the classical scheme on a scalar right-hand side, and
    the [n] samples that follow [(t, x)] in a run: each is the advance of
    the one before. *)
Definition scalar_advance (g : float -> float -> float) (h t x : float)
  : float * float :=
  let k1 := (h * g t x)%float in
  let k2 := (h * g (t + h / 2) (x + k1 / 2))%float in
  let k3 := (h * g (t + h / 2) (x + k2 / 2))%float in
  let k4 := (h * g (t + h) (x + k3))%float in
  ((t + h)%float, (x + (k1 + 2 * k2 + 2 * k3 + k4) / 6)%float).

Fixpoint scalar_advances (g : float -> float -> float) (h t x : float)
    (n : nat) : list (float * float) :=
  match n with
  | O => []
  | S n' =>
      let s := scalar_advance g h t x in
      s :: scalar_advances g h s.1 s.2 n'
  end.

(** The same for a system: the time and the state vector of each sample. *)
Fixpoint system_advances (gs : list pure_function) (h t : float)
    (x : list float) (n : nat) : list (float * list float) :=
  match n with
  | O => []
  | S n' =>
      (scheme_time h t, scheme_state gs h t x)
      :: system_advances gs h (scheme_time h t) (scheme_state gs h t x) n'
  end.

(** * Properties *)

(** ** Comprehensions *)

Lemma bind_ok {A B : Type} (r : result A) (k : A -> result B) (b : B) :
  bind r k = Ok b -> exists a, r = Ok a /\ k a = Ok b.
Proof. destruct r as [a|e]; simpl; [eauto | discriminate]. Qed.

Lemma bind_err {A B : Type} (r : result A) (k : A -> result B) (e : exn) :
  bind r k = Err e -> r = Err e \/ exists a, r = Ok a /\ k a = Err e.
Proof. destruct r as [a|e']; simpl; [eauto | intros [= ->]; auto]. Qed.

Lemma mapM_total {A B : Type} (g : A -> result B) (l : list A) :
  Forall (fun a => exists b, g a = Ok b) l ->
  exists bs, mapM g l = Ok bs /\ length bs = length l.
Proof.
  induction 1 as [|a l [b Hb] _ [bs [Hbs Hlen]]]; simpl.
  - exists []; auto.
  - rewrite Hb, Hbs; simpl. exists (b :: bs); simpl; auto.
Qed.

Lemma mapM_err {A B : Type} (g : A -> result B) (l : list A) (e : exn) :
  mapM g l = Err e -> exists a, a ∈ l /\ g a = Err e.
Proof.
  induction l as [|a l IH]; simpl; [discriminate|].
  destruct (g a) as [b|e'] eqn:Ha; simpl.
  - destruct (mapM g l) as [bs|e'']; simpl; [discriminate|].
    intros [= ->]. destruct IH as [a' [Hin Ha']]; [reflexivity|].
    exists a'; split; [right; exact Hin | exact Ha'].
  - intros [= ->]. exists a; split; [left | exact Ha].
Qed.

(** A comprehension over [range(len(l))] whose body gives the elements of
    [l] is [l]. *)
Lemma mapM_seq {B : Type} (g : nat -> result B) (l : list B) (a : nat) :
  (forall i x, l !! i = Some x -> g (a + i)%nat = Ok x) ->
  mapM g (seq a (length l)) = Ok l.
Proof.
  revert a; induction l as [|b l IH]; intros a Hg; simpl; [reflexivity|].
  pose proof (Hg 0%nat b eq_refl) as H0. rewrite Nat.add_0_r in H0.
  rewrite H0; simpl. rewrite IH; [reflexivity|].
  intros i x Hi. specialize (Hg (S i) x Hi).
  rewrite Nat.add_succ_r in Hg. exact Hg.
Qed.

Lemma index_ok (l : list float) (i : nat) (x : float) :
  l !! i = Some x -> index l i = Ok x.
Proof. unfold index; intros ->; reflexivity. Qed.

Lemma index_lt (l : list float) (i : nat) :
  (i < length l)%nat -> exists x, l !! i = Some x /\ index l i = Ok x.
Proof.
  intros Hi. destruct (lookup_lt_is_Some_2 l i Hi) as [x Hx].
  exists x; split; [exact Hx | apply index_ok, Hx].
Qed.

Lemma index_err (l : list float) (i : nat) (e : exn) :
  index l i = Err e -> e = IndexError.
Proof. unfold index; destruct (l !! i); [discriminate | intros [= <-]; reflexivity]. Qed.

(** ** The stages *)

Lemma stage_lift (gs : list pure_function) (h t : float) (vals : list float) :
  stage (map lift gs) h t vals = Ok (slopes gs h t vals).
Proof.
  unfold stage, slopes. induction gs as [|g gs IH]; simpl; [reflexivity|].
  rewrite IH; reflexivity.
Qed.

Lemma half_shift_zip (cur k : list float) :
  length k = length cur ->
  half_shift (length cur) cur k
  = Ok (zip_with (fun xi a => (xi + a / 2)%float) cur k).
Proof.
  intros Hlen. unfold half_shift.
  rewrite <- (length_zip_with_l_eq (fun xi a => (xi + a / 2)%float) cur k)
    by (symmetry; exact Hlen).
  apply mapM_seq. intros i x Hx. simpl.
  apply lookup_zip_with_Some in Hx as (c & a & -> & Hc & Ha).
  rewrite (index_ok _ _ _ Hc), (index_ok _ _ _ Ha). reflexivity.
Qed.

Lemma full_shift_zip (cur k : list float) :
  length k = length cur ->
  full_shift (length cur) cur k
  = Ok (zip_with (fun xi a => (xi + a)%float) cur k).
Proof.
  intros Hlen. unfold full_shift.
  rewrite <- (length_zip_with_l_eq (fun xi a => (xi + a)%float) cur k)
    by (symmetry; exact Hlen).
  apply mapM_seq. intros i x Hx. simpl.
  apply lookup_zip_with_Some in Hx as (c & a & -> & Hc & Ha).
  rewrite (index_ok _ _ _ Hc), (index_ok _ _ _ Ha). reflexivity.
Qed.

Lemma length_slopes (gs : list pure_function) (h t : float) (x : list float) :
  length (slopes gs h t x) = length gs.
Proof. unfold slopes. apply length_map. Qed.

Lemma stages_lift (gs : list pure_function) (h t : float) (x : list float) :
  length gs = length x ->
  stages (map lift gs) h (length x) t x
  = Ok (scheme_k1 gs h t x, scheme_k2 gs h t x,
        scheme_k3 gs h t x, scheme_k4 gs h t x).
Proof.
  intros Hlen. unfold stages.
  rewrite stage_lift; simpl.
  rewrite half_shift_zip by (rewrite length_slopes; exact Hlen); simpl.
  rewrite stage_lift; simpl.
  rewrite half_shift_zip by (rewrite length_slopes; exact Hlen); simpl.
  rewrite stage_lift; simpl.
  rewrite full_shift_zip by (rewrite length_slopes; exact Hlen); simpl.
  rewrite stage_lift; simpl.
  reflexivity.
Qed.

(** ** The update loop *)

Lemma updated_ok (cur k1 k2 k3 k4 : list float) (i : nat) (c a1 a2 a3 a4 : float) :
  cur !! i = Some c -> k1 !! i = Some a1 -> k2 !! i = Some a2 ->
  k3 !! i = Some a3 -> k4 !! i = Some a4 ->
  updated cur k1 k2 k3 k4 i = Ok (c + (a1 + 2 * a2 + 2 * a3 + a4) / 6)%float.
Proof.
  intros Hc H1 H2 H3 H4. unfold updated.
  rewrite (index_ok _ _ _ Hc), (index_ok _ _ _ H1), (index_ok _ _ _ H2),
    (index_ok _ _ _ H3), (index_ok _ _ _ H4).
  reflexivity.
Qed.

Lemma updated_err (cur k1 k2 k3 k4 : list float) (i : nat) (e : exn) :
  updated cur k1 k2 k3 k4 i = Err e -> e = IndexError.
Proof.
  unfold updated. intros H.
  repeat (apply bind_err in H as [H | (? & _ & H)];
          [apply index_err in H; exact H|]).
  discriminate.
Qed.

(** The loop over [range(n_vars)] stores, at each index, the value computed
    from the element that was there before the loop. *)
Lemma update_cell_seq (k1 k2 k3 k4 : list float) (m a : nat) (cur : list float) :
  (a + m <= length cur)%nat -> (a + m <= length k1)%nat ->
  (a + m <= length k2)%nat -> (a + m <= length k3)%nat ->
  (a + m <= length k4)%nat ->
  exists cur',
    update_cell cur k1 k2 k3 k4 (seq a m) = (cur', None)
    /\ length cur' = length cur
    /\ (forall i, (a <= i < a + m)%nat ->
          exists v, updated cur k1 k2 k3 k4 i = Ok v /\ cur' !! i = Some v)
    /\ (forall i, ~ (a <= i < a + m)%nat -> cur' !! i = cur !! i).
Proof.
  revert a cur. induction m as [|m IH]; intros a cur Hc H1 H2 H3 H4; simpl.
  - exists cur. split; [reflexivity|]. split; [reflexivity|].
    split; [intros i Hi; lia | reflexivity].
  - destruct (index_lt cur a) as (c & Hca & _); [lia|].
    destruct (index_lt k1 a) as (a1 & Ha1 & _); [lia|].
    destruct (index_lt k2 a) as (a2 & Ha2 & _); [lia|].
    destruct (index_lt k3 a) as (a3 & Ha3 & _); [lia|].
    destruct (index_lt k4 a) as (a4 & Ha4 & _); [lia|].
    rewrite (updated_ok _ _ _ _ _ _ _ _ _ _ _ Hca Ha1 Ha2 Ha3 Ha4).
    set (v := (c + (a1 + 2 * a2 + 2 * a3 + a4) / 6)%float).
    destruct (IH (S a) (<[a := v]> cur)) as (cur' & Hrun & Hlen & Hin & Hout);
      try (rewrite ?length_insert; lia).
    exists cur'. split; [exact Hrun|]. rewrite length_insert in Hlen.
    split; [exact Hlen|]. split.
    + intros i Hi. destruct (decide (i = a)) as [->|Hne].
      * exists v. split.
        -- apply (updated_ok _ _ _ _ _ _ _ _ _ _ _ Hca Ha1 Ha2 Ha3 Ha4).
        -- rewrite Hout by lia. apply list_lookup_insert_eq. lia.
      * destruct (Hin i) as (w & Hw & Hlook); [lia|].
        exists w. split; [|exact Hlook].
        unfold updated in *. unfold index in *.
        rewrite list_lookup_insert_ne in Hw by lia. exact Hw.
    + intros i Hi. rewrite Hout by lia.
      apply list_lookup_insert_ne. lia.
Qed.

Lemma update_cell_err (k1 k2 k3 k4 : list float) (indices : list nat)
    (cur cur' : list float) (e : exn) :
  update_cell cur k1 k2 k3 k4 indices = (cur', Some e) -> e = IndexError.
Proof.
  revert cur. induction indices as [|i rest IH]; intros cur; simpl.
  - discriminate.
  - destruct (updated cur k1 k2 k3 k4 i) as [v|e'] eqn:Hu.
    + apply IH.
    + intros [= _ ->]. apply (updated_err _ _ _ _ _ _ _ Hu).
Qed.

(** The loop on the store is the loop on the contents of [curr_vals]. *)
Lemma update_loop_cell (k1 k2 k3 k4 : list float) (indices : list nat)
    (hp : heap) (cv : loc) :
  (cv < length hp)%nat ->
  update_loop hp cv k1 k2 k3 k4 indices
  = let (cur', oe) := update_cell (hp !!! cv) k1 k2 k3 k4 indices in
    (<[cv := cur']> hp, oe).
Proof.
  revert hp. induction indices as [|i rest IH]; intros hp Hcv;
    cbn [update_loop update_cell].
  - rewrite list_insert_id; [reflexivity|].
    apply list_lookup_lookup_total_lt, Hcv.
  - destruct (updated (hp !!! cv) k1 k2 k3 k4 i) as [v|e].
    + rewrite IH by (rewrite length_insert; exact Hcv).
      rewrite list_lookup_total_insert_eq by exact Hcv.
      destruct (update_cell _ k1 k2 k3 k4 rest) as [cur' oe].
      rewrite list_insert_insert_eq. reflexivity.
    + rewrite list_insert_id; [reflexivity|].
      apply list_lookup_lookup_total_lt, Hcv.
Qed.

(** ** One [next()] of the system generator *)

Section SystemNext.
Variables (functions : list callable) (t0 : float) (ic : loc) (h : float)
          (n_steps : Z).

Lemma system_next_created (hp : heap) :
  system_next functions t0 ic h n_steps hp YCreated
  = (Yield (t0, S (length hp)), hp ++ [hp !!! ic; hp !!! ic],
     YSuspended (length (hp !!! ic)) t0 (length hp) 0).
Proof.
  unfold system_next, alloc.
  rewrite lookup_total_app_r by lia. rewrite Nat.sub_diag. simpl.
  rewrite length_app; simpl. rewrite Nat.add_1_r.
  rewrite <- app_assoc. reflexivity.
Qed.

Lemma system_next_suspended (hp : heap) (n : nat) (t : float) (cv : loc)
    (step : Z) :
  (cv < length hp)%nat ->
  system_next functions t0 ic h n_steps hp (YSuspended n t cv step)
  = if step <? n_steps then
      match stages functions h n t (hp !!! cv) with
      | Ok (k1, k2, k3, k4) =>
          match update_cell (hp !!! cv) k1 k2 k3 k4 (seq 0 n) with
          | (cur', None) =>
              (Yield ((t + h)%float, length hp), <[cv := cur']> hp ++ [cur'],
               YSuspended n (t + h)%float cv (step + 1))
          | (cur', Some e) => (Raise e, <[cv := cur']> hp, YFinished)
          end
      | Err e => (Raise e, hp, YFinished)
      end
    else (StopIteration, hp, YFinished).
Proof.
  intros Hcv. unfold system_next.
  destruct (step <? n_steps); [|reflexivity].
  destruct (stages functions h n t (hp !!! cv)) as [[[[k1 k2] k3] k4]|e];
    [|reflexivity].
  rewrite update_loop_cell by exact Hcv.
  destruct (update_cell (hp !!! cv) k1 k2 k3 k4 (seq 0 n)) as [cur' [e|]];
    [reflexivity|].
  unfold alloc. rewrite length_insert.
  rewrite list_lookup_total_insert_eq by exact Hcv. reflexivity.
Qed.

(** What one [next()] does to the store, and that it is the [next()] of
    the generator on contents. *)
Lemma system_next_refines (hp : heap) (fr : system_frame) :
  well_formed hp fr ->
  exists o hp' fr',
    system_next functions t0 ic h n_steps hp fr = (o, hp', fr')
    /\ (observed hp' o, snapshot hp' fr')
       = pure_next functions t0 (hp !!! ic) h n_steps (snapshot hp fr)
    /\ well_formed hp' fr'
    /\ (length hp <= length hp')%nat
    /\ (forall a, (a < length hp)%nat -> private fr <> Some a ->
          hp' !! a = hp !! a)
    /\ (forall a, private fr' = Some a ->
          private fr = Some a \/ (length hp <= a)%nat)
    /\ (forall t y, o = Yield (t, y) ->
          (length hp <= y < length hp')%nat /\ private fr' <> Some y).
Proof.
  intros Hwf. destruct fr as [|n t cv step|].
  - rewrite system_next_created. do 3 eexists. split; [reflexivity|].
    simpl. repeat split.
    + rewrite !lookup_total_app_r by (simpl; lia).
      rewrite Nat.sub_diag.
      replace (S (length hp) - length hp)%nat with 1%nat by lia.
      reflexivity.
    + rewrite length_app; simpl; lia.
    + rewrite length_app; simpl; lia.
    + intros a Ha _. apply lookup_app_l, Ha.
    + intros a [= <-]. right; lia.
    + injection H as <- <-. lia.
    + injection H as <- <-. rewrite length_app; simpl; lia.
    + injection H as <- <-. intros [= Heq]. lia.
  - simpl in Hwf. rewrite system_next_suspended by exact Hwf. simpl.
    destruct (step <? n_steps).
    + destruct (stages functions h n t (hp !!! cv)) as [[[[k1 k2] k3] k4]|e].
      * destruct (update_cell (hp !!! cv) k1 k2 k3 k4 (seq 0 n))
          as [cur' [e|]].
        -- do 3 eexists. split; [reflexivity|]. simpl.
           repeat split; try discriminate.
           ++ rewrite length_insert; lia.
           ++ intros a Ha Hne. apply list_lookup_insert_ne. congruence.
        -- do 3 eexists. split; [reflexivity|]. simpl.
           repeat split.
           ++ rewrite lookup_total_app_r by (rewrite length_insert; lia).
              rewrite length_insert, Nat.sub_diag. simpl.
              rewrite lookup_total_app_l by (rewrite length_insert; lia).
              rewrite list_lookup_total_insert_eq by exact Hwf.
              reflexivity.
           ++ rewrite length_app, length_insert; lia.
           ++ rewrite length_app, length_insert; lia.
           ++ intros a Ha Hne.
              rewrite lookup_app_l by (rewrite length_insert; lia).
              apply list_lookup_insert_ne. congruence.
           ++ intros a Ha. left; exact Ha.
           ++ injection H as <- <-. lia.
           ++ injection H as <- <-.
              rewrite length_app, length_insert; simpl; lia.
           ++ injection H as <- <-. intros [= Heq]. lia.
      * do 3 eexists. split; [reflexivity|]. simpl.
        repeat split; try discriminate. lia.
    + do 3 eexists. split; [reflexivity|]. simpl.
      repeat split; try discriminate. lia.
  - do 3 eexists. split; [reflexivity|]. simpl.
    repeat split; try discriminate. lia.
Qed.
End SystemNext.

Lemma update_cell_scheme (x k1 k2 k3 k4 : list float) :
  length k1 = length x -> length k2 = length x ->
  length k3 = length x -> length k4 = length x ->
  update_cell x k1 k2 k3 k4 (seq 0 (length x))
  = (zip_with (fun xi s => (xi + s / 6)%float) x (weighted_sum k1 k2 k3 k4),
     None).
Proof.
  intros H1 H2 H3 H4.
  destruct (update_cell_seq k1 k2 k3 k4 (length x) 0 x)
    as (cur' & Hrun & Hlen & Hin & Hout); try lia.
  rewrite Hrun. f_equal. apply list_eq. intros i.
  unfold weighted_sum. rewrite !lookup_zip_with.
  destruct (decide (i < length x)%nat) as [Hi|Hi].
  - destruct (Hin i) as (v & Hv & ->); [lia|].
    destruct (lookup_lt_is_Some_2 x i Hi) as [c Hc].
    destruct (lookup_lt_is_Some_2 k1 i) as [a1 Ha1]; [lia|].
    destruct (lookup_lt_is_Some_2 k2 i) as [a2 Ha2]; [lia|].
    destruct (lookup_lt_is_Some_2 k3 i) as [a3 Ha3]; [lia|].
    destruct (lookup_lt_is_Some_2 k4 i) as [a4 Ha4]; [lia|].
    rewrite (updated_ok _ _ _ _ _ _ _ _ _ _ _ Hc Ha1 Ha2 Ha3 Ha4) in Hv.
    injection Hv as <-.
    rewrite Hc, Ha1, Ha2, Ha3, Ha4. reflexivity.
  - rewrite Hout by lia.
    rewrite (lookup_ge_None_2 x i) by lia. reflexivity.
Qed.

(** ** Totality of a step *)

Lemma stage_total (fs : list callable) (h t : float) (vals : list float) :
  Forall (total_on h (length vals)) fs ->
  exists k, stage fs h t vals = Ok k /\ length k = length fs.
Proof.
  intros Hfs. unfold stage. apply mapM_total.
  eapply Forall_impl; [exact Hfs|]. intros f Hf. simpl.
  destruct (Hf t vals eq_refl) as (v & k & Hv & Hk).
  rewrite Hv; cbn [bind]. eauto.
Qed.

Lemma shift_total (g : float -> float -> float) (n : nat) (cur k : list float) :
  (n <= length cur)%nat -> (n <= length k)%nat ->
  exists r,
    mapM (fun i => let* c := index cur i in
                   let* a := index k i in Ok (g c a)) (seq 0 n) = Ok r
    /\ length r = n.
Proof.
  intros Hc Hk.
  destruct (mapM_total (fun i => let* c := index cur i in
                                 let* a := index k i in Ok (g c a)) (seq 0 n))
    as (r & Hr & Hlen).
  - apply Forall_forall. intros i Hi. apply elem_of_seq in Hi.
    destruct (index_lt cur i) as (c & _ & ->); [lia|].
    destruct (index_lt k i) as (a & _ & ->); [lia|].
    simpl. eauto.
  - exists r. split; [exact Hr|]. rewrite Hlen. apply length_seq.
Qed.

Lemma stages_total (fs : list callable) (h t : float) (cur : list float) :
  Forall (total_on h (length cur)) fs -> (length cur <= length fs)%nat ->
  exists k1 k2 k3 k4,
    stages fs h (length cur) t cur = Ok (k1, k2, k3, k4)
    /\ length k1 = length fs /\ length k2 = length fs
    /\ length k3 = length fs /\ length k4 = length fs.
Proof.
  intros Hfs Hlen. unfold stages, half_shift, full_shift.
  destruct (stage_total fs h t cur Hfs) as (k1 & -> & H1). simpl.
  destruct (shift_total (fun c a => (c + a / 2)%float) (length cur) cur k1)
    as (v2 & -> & Hv2); [lia | lia |]. simpl.
  destruct (stage_total fs h (t + h / 2)%float v2) as (k2 & -> & H2);
    [rewrite Hv2; exact Hfs|]. simpl.
  destruct (shift_total (fun c a => (c + a / 2)%float) (length cur) cur k2)
    as (v3 & -> & Hv3); [lia | lia |]. simpl.
  destruct (stage_total fs h (t + h / 2)%float v3) as (k3 & -> & H3);
    [rewrite Hv3; exact Hfs|]. simpl.
  destruct (shift_total (fun c a => (c + a)%float) (length cur) cur k3)
    as (v4 & -> & Hv4); [lia | lia |]. simpl.
  destruct (stage_total fs h (t + h)%float v4) as (k4 & -> & H4);
    [rewrite Hv4; exact Hfs|]. simpl.
  exists k1, k2, k3, k4. auto.
Qed.

Lemma single_body_total (f : callable) (h t x : float) :
  total_on h 1 f -> exists s, single_body f h t x = Ok s.
Proof.
  intros Hf. unfold single_body.
  destruct (Hf t [x] eq_refl) as (v1 & k1 & Hv1 & Hk1).
  rewrite Hv1; cbn [bind]; rewrite Hk1; cbn [bind].
  destruct (Hf (t + h / 2)%float [(x + k1 / 2)%float] eq_refl)
    as (v2 & k2 & Hv2 & Hk2).
  rewrite Hv2; cbn [bind]; rewrite Hk2; cbn [bind].
  destruct (Hf (t + h / 2)%float [(x + k2 / 2)%float] eq_refl)
    as (v3 & k3 & Hv3 & Hk3).
  rewrite Hv3; cbn [bind]; rewrite Hk3; cbn [bind].
  destruct (Hf (t + h)%float [(x + k3)%float] eq_refl)
    as (v4 & k4 & Hv4 & Hk4).
  rewrite Hv4; cbn [bind]; rewrite Hk4; cbn [bind].
  eauto.
Qed.

(** ** Whole runs *)

Lemma single_pulls_S (f : callable) (t0 x0 h : float) (n_steps : Z)
    (fuel : nat) (fr : single_frame) :
  single_pulls f t0 x0 h n_steps (S fuel) fr
  = match single_next f t0 x0 h n_steps fr with
    | (Yield s, fr') =>
        let (l, e) := single_pulls f t0 x0 h n_steps fuel fr' in (s :: l, e)
    | (StopIteration, _) => ([], Exhausted)
    | (Raise e, _) => ([], Raised e)
    end.
Proof. reflexivity. Qed.

Lemma system_pulls_S (fs : list callable) (t0 : float) (ic : loc)
    (h : float) (n_steps : Z) (fuel : nat) (hp : heap) (fr : system_frame) :
  system_pulls fs t0 ic h n_steps (S fuel) hp fr
  = match system_next fs t0 ic h n_steps hp fr with
    | (Yield (t, y), hp', fr') =>
        let '(l, e, hp'') := system_pulls fs t0 ic h n_steps fuel hp' fr' in
        ((t, y, hp' !!! y) :: l, e, hp'')
    | (StopIteration, hp', _) => ([], Exhausted, hp')
    | (Raise e, hp', _) => ([], Raised e, hp')
    end.
Proof. reflexivity. Qed.

Lemma single_pulls_total (f : callable) (t0 x0 h : float) (n_steps : Z)
    (k : nat) :
  total_on h 1 f ->
  forall i t x, i + Z.of_nat k = n_steps ->
    exists l, single_pulls f t0 x0 h n_steps (S k) (SSuspended t x i)
              = (l, Exhausted) /\ length l = k.
Proof.
  intros Hf. induction k as [|k IH]; intros i t x Hi;
    rewrite single_pulls_S; cbn [single_next].
  - exists [].
    replace (i <? n_steps) with false by (symmetry; apply Z.ltb_ge; lia).
    auto.
  - replace (i <? n_steps) with true by (symmetry; apply Z.ltb_lt; lia).
    destruct (single_body_total f h t x Hf) as ([t' x'] & ->).
    destruct (IH (i + 1) t' x') as (l & -> & Hlen); [lia|].
    exists ((t', x') :: l). simpl. auto.
Qed.

Lemma system_pulls_total (fs : list callable) (t0 : float) (ic : loc)
    (h : float) (n_steps : Z) (n : nat) (k : nat) :
  Forall (total_on h n) fs -> (n <= length fs)%nat ->
  forall step t cv hp, step + Z.of_nat k = n_steps ->
    (cv < length hp)%nat -> length (hp !!! cv) = n ->
    exists l hp', system_pulls fs t0 ic h n_steps (S k) hp
                    (YSuspended n t cv step) = (l, Exhausted, hp')
                  /\ length l = k.
Proof.
  intros Hfs Hn. induction k as [|k IH]; intros step t cv hp Hstep Hcv Hlen;
    rewrite system_pulls_S, system_next_suspended by exact Hcv.
  - exists [], hp.
    replace (step <? n_steps) with false by (symmetry; apply Z.ltb_ge; lia).
    auto.
  - replace (step <? n_steps) with true by (symmetry; apply Z.ltb_lt; lia).
    subst n.
    destruct (stages_total fs h t (hp !!! cv) Hfs Hn)
      as (k1 & k2 & k3 & k4 & -> & H1 & H2 & H3 & H4).
    destruct (update_cell_seq k1 k2 k3 k4 (length (hp !!! cv)) 0 (hp !!! cv))
      as (cur' & -> & Hlen' & _); try lia.
    destruct (IH (step + 1) (t + h)%float cv (<[cv := cur']> hp ++ [cur']))
      as (l & hp' & -> & Hk).
    + lia.
    + rewrite length_app, length_insert. lia.
    + rewrite lookup_total_app_l by (rewrite length_insert; exact Hcv).
      rewrite list_lookup_total_insert_eq by exact Hcv. exact Hlen'.
    + eexists _, hp'. split; [reflexivity|]. simpl. auto.
Qed.

(** ** Where an exception comes from *)

Lemma call_err (f : callable) (h : float) (args : list float) (e : exn) :
  (let* v := f args in float_mul_value h v) = Err e -> raised_by f h e.
Proof.
  intros H. exists args. apply bind_err in H as [H | (v & Hv & H)]; eauto.
Qed.

Lemma single_body_err (f : callable) (h t x : float) (e : exn) :
  single_body f h t x = Err e -> raised_by f h e.
Proof.
  unfold single_body. intros H.
  destruct (f [t; x]) as [v1|e1] eqn:H1; cbn [bind] in H;
    [|injection H as ->; exists [t; x]; auto].
  destruct (float_mul_value h v1) as [k1|e1] eqn:M1; cbn [bind] in H;
    [|injection H as ->; exists [t; x]; eauto].
  destruct (f [(t + h / 2)%float; (x + k1 / 2)%float]) as [v2|e2] eqn:H2;
    cbn [bind] in H; [|injection H as ->; eexists; eauto].
  destruct (float_mul_value h v2) as [k2|e2] eqn:M2; cbn [bind] in H;
    [|injection H as ->; eexists; eauto].
  destruct (f [(t + h / 2)%float; (x + k2 / 2)%float]) as [v3|e3] eqn:H3;
    cbn [bind] in H; [|injection H as ->; eexists; eauto].
  destruct (float_mul_value h v3) as [k3|e3] eqn:M3; cbn [bind] in H;
    [|injection H as ->; eexists; eauto].
  destruct (f [(t + h)%float; (x + k3)%float]) as [v4|e4] eqn:H4;
    cbn [bind] in H; [|injection H as ->; eexists; eauto].
  destruct (float_mul_value h v4) as [k4|e4] eqn:M4; cbn [bind] in H;
    [discriminate|injection H as ->; eexists; eauto].
Qed.

Lemma stage_err (fs : list callable) (h t : float) (vals : list float)
    (e : exn) :
  stage fs h t vals = Err e -> exists f, f ∈ fs /\ raised_by f h e.
Proof.
  unfold stage. intros H. apply mapM_err in H as (f & Hin & H).
  exists f. split; [exact Hin|]. apply (call_err _ _ _ _ H).
Qed.

Lemma shift_err (g : float -> float -> float) (n : nat) (cur k : list float)
    (e : exn) :
  mapM (fun i => let* c := index cur i in
                 let* a := index k i in Ok (g c a)) (seq 0 n) = Err e ->
  e = IndexError.
Proof.
  intros H. apply mapM_err in H as (i & _ & H).
  apply bind_err in H as [H | (c & _ & H)]; [apply (index_err _ _ _ H)|].
  apply bind_err in H as [H | (a & _ & H)]; [apply (index_err _ _ _ H)|].
  discriminate.
Qed.

Lemma stages_err (fs : list callable) (h : float) (n : nat) (t : float)
    (cur : list float) (e : exn) :
  stages fs h n t cur = Err e ->
  (exists f, f ∈ fs /\ raised_by f h e) \/ e = IndexError.
Proof.
  unfold stages, half_shift, full_shift. intros H.
  apply bind_err in H as [H | (k1 & _ & H)]; [left; apply (stage_err _ _ _ _ _ H)|].
  apply bind_err in H as [H | (v2 & _ & H)]; [right; apply (shift_err _ _ _ _ _ H)|].
  apply bind_err in H as [H | (k2 & _ & H)]; [left; apply (stage_err _ _ _ _ _ H)|].
  apply bind_err in H as [H | (v3 & _ & H)]; [right; apply (shift_err _ _ _ _ _ H)|].
  apply bind_err in H as [H | (k3 & _ & H)]; [left; apply (stage_err _ _ _ _ _ H)|].
  apply bind_err in H as [H | (v4 & _ & H)]; [right; apply (shift_err _ _ _ _ _ H)|].
  apply bind_err in H as [H | (k4 & _ & H)]; [left; apply (stage_err _ _ _ _ _ H)|].
  discriminate.
Qed.

Lemma single_pulls_raised (f : callable) (t0 x0 h : float) (n_steps : Z)
    (fuel : nat) :
  forall fr l e,
    single_pulls f t0 x0 h n_steps fuel fr = (l, Raised e) -> raised_by f h e.
Proof.
  induction fuel as [|fuel IH]; intros fr l e; [discriminate|].
  rewrite single_pulls_S.
  destruct fr as [|t x i|]; cbn [single_next].
  - destruct (single_pulls f t0 x0 h n_steps fuel (SSuspended t0 x0 0))
      as [l' e'] eqn:Hrun.
    intros [= _ ->]. apply (IH _ _ _ Hrun).
  - destruct (i <? n_steps); [|discriminate].
    destruct (single_body f h t x) as [[t' x']|e'] eqn:Hb.
    + destruct (single_pulls f t0 x0 h n_steps fuel (SSuspended t' x' (i + 1)))
        as [l' e''] eqn:Hrun.
      intros [= _ ->]. apply (IH _ _ _ Hrun).
    + intros [= _ <-]. apply (single_body_err _ _ _ _ _ Hb).
  - discriminate.
Qed.

Lemma system_pulls_raised (fs : list callable) (t0 : float) (ic : loc)
    (h : float) (n_steps : Z) (fuel : nat) :
  forall hp fr l e hp',
    well_formed hp fr ->
    system_pulls fs t0 ic h n_steps fuel hp fr = (l, Raised e, hp') ->
    (exists f, f ∈ fs /\ raised_by f h e) \/ e = IndexError.
Proof.
  induction fuel as [|fuel IH]; intros hp fr l e hp' Hwf; [discriminate|].
  rewrite system_pulls_S.
  destruct fr as [|n t cv step|].
  - rewrite system_next_created.
    destruct (system_pulls fs t0 ic h n_steps fuel _ _) as [[l' e'] hp'']
      eqn:Hrun.
    intros [= _ -> _]. refine (IH _ _ _ _ _ _ Hrun).
    simpl. rewrite length_app. simpl. lia.
  - simpl in Hwf. rewrite system_next_suspended by exact Hwf.
    destruct (step <? n_steps); [|discriminate].
    destruct (stages fs h n t (hp !!! cv)) as [[[[k1 k2] k3] k4]|e'] eqn:Hst.
    + destruct (update_cell (hp !!! cv) k1 k2 k3 k4 (seq 0 n))
        as [cur' [e'|]] eqn:Hup.
      * intros [= _ <- _]. right. apply (update_cell_err _ _ _ _ _ _ _ _ Hup).
      * destruct (system_pulls fs t0 ic h n_steps fuel _ _) as [[l' e'] hp'']
          eqn:Hrun.
        intros [= _ -> _]. refine (IH _ _ _ _ _ _ Hrun).
        simpl. rewrite length_app, length_insert. lia.
    + intros [= _ <- _]. apply (stages_err _ _ _ _ _ _ Hst).
  - discriminate.
Qed.

(** ** What a run does to the store *)

Lemma system_pulls_frame (fs : list callable) (t0 : float) (ic : loc)
    (h : float) (n_steps : Z) (fuel : nat) :
  forall hp fr l e hp',
    well_formed hp fr ->
    system_pulls fs t0 ic h n_steps fuel hp fr = (l, e, hp') ->
    (length hp <= length hp')%nat
    /\ (forall a, (a < length hp)%nat -> private fr <> Some a ->
          hp' !! a = hp !! a)
    /\ Forall (fun s => (length hp <= s.1.2)%nat /\ hp' !! s.1.2 = Some s.2) l
    /\ NoDup (map (fun s => s.1.2) l).
Proof.
  induction fuel as [|fuel IH]; intros hp fr l e hp' Hwf.
  - intros [= <- _ <-]. repeat split; auto; constructor.
  - rewrite system_pulls_S.
    destruct (system_next_refines fs t0 ic h n_steps hp fr Hwf)
      as (o & hp1 & fr1 & -> & _ & Hwf1 & Hlen & Hframe & Hpriv & Hfresh).
    destruct o as [[t y]| |e1].
    + destruct (system_pulls fs t0 ic h n_steps fuel hp1 fr1)
        as [[l' e'] hp''] eqn:Hrun.
      intros [= <- _ <-].
      destruct (IH _ _ _ _ _ Hwf1 Hrun) as (Hlen' & Hframe' & Hall & Hnd).
      destruct (Hfresh t y eq_refl) as (Hy & Hny).
      split; [lia|]. split; [|split].
      * intros a Ha Hne. rewrite Hframe'.
        -- apply Hframe; assumption.
        -- lia.
        -- intros Hp. destruct (Hpriv a Hp); [congruence | lia].
      * constructor.
        -- simpl. split; [lia|]. rewrite Hframe'; [|lia|exact Hny].
           apply list_lookup_lookup_total_lt. lia.
        -- eapply Forall_impl; [exact Hall|]. simpl. intros s [? ?].
           split; [lia | assumption].
      * simpl. constructor; [|exact Hnd].
        intros Hin. apply list_elem_of_In, in_map_iff in Hin as (s & Hs & Hin).
        apply list_elem_of_In in Hin.
        rewrite Forall_forall in Hall. destruct (Hall s Hin) as [Hge _].
        rewrite Hs in Hge. lia.
    + intros [= <- _ <-]. repeat split; auto; try constructor.
    + intros [= <- _ <-]. repeat split; auto; try constructor.
Qed.

(** ** Generators that share a store *)

Section Independence.
Variables (fs : list callable) (t0 : float) (ic : loc) (h : float)
          (n_steps : Z).

Lemma lookup_total_eq (hp hp' : heap) (a : nat) :
  hp' !! a = hp !! a -> hp' !!! a = hp !!! a.
Proof. intros H. rewrite !list_lookup_total_alt, H. reflexivity. Qed.

Lemma sound_step (init : list float) (hp : heap) (fr : system_frame) :
  sound ic init hp fr ->
  exists o hp' fr',
    system_next fs t0 ic h n_steps hp fr = (o, hp', fr')
    /\ (observed hp' o, snapshot hp' fr')
       = pure_next fs t0 init h n_steps (snapshot hp fr)
    /\ sound ic init hp' fr'
    /\ (forall fr2, sound ic init hp fr2 ->
          (forall a, private fr = Some a -> private fr2 <> Some a) ->
          sound ic init hp' fr2 /\ snapshot hp' fr2 = snapshot hp fr2
          /\ (forall a, private fr' = Some a -> private fr2 <> Some a)).
Proof.
  intros (Hwf & Hic & Hne & Hinit).
  destruct (system_next_refines fs t0 ic h n_steps hp fr Hwf)
    as (o & hp' & fr' & Hnext & Hpure & Hwf' & Hlen & Hframe & Hpriv & _).
  exists o, hp', fr'. split; [exact Hnext|].
  assert (Hic' : hp' !!! ic = init).
  { rewrite <- Hinit. apply lookup_total_eq, Hframe; assumption. }
  split; [rewrite Hpure, Hinit; reflexivity|]. split.
  - repeat split; [exact Hwf' | lia | | exact Hic'].
    intros Hp. destruct (Hpriv ic Hp); [congruence | lia].
  - intros fr2 (Hwf2 & _ & Hne2 & _) Hdis.
    destruct fr2 as [|n2 t2 cv2 s2|];
      unfold sound; cbn [well_formed private snapshot] in *.
    + repeat split; auto; try lia; discriminate.
    + assert (Hcv2 : hp' !! cv2 = hp !! cv2).
      { apply Hframe; [exact Hwf2|]. intros Hp. apply (Hdis cv2 Hp). reflexivity. }
      repeat split; auto; try lia.
      * rewrite (lookup_total_eq _ _ _ Hcv2). reflexivity.
      * intros a Hp [= Heq]. subst a.
        destruct (Hpriv cv2 Hp) as [Hp'|]; [|lia].
        apply (Hdis cv2 Hp'). reflexivity.
    + repeat split; auto; try lia; discriminate.
Qed.

Lemma system_trace_pure (init : list float) (n : nat) :
  forall hp fr, sound ic init hp fr ->
    system_trace fs t0 ic h n_steps n hp fr
    = pure_trace fs t0 init h n_steps n (snapshot hp fr).
Proof.
  induction n as [|n IH]; intros hp fr Hs; [reflexivity|].
  cbn [system_trace pure_trace].
  destruct (sound_step init hp fr Hs) as (o & hp' & fr' & -> & Hpure & Hs' & _).
  rewrite <- Hpure, (IH _ _ Hs'). reflexivity.
Qed.

Lemma interleaved_pure (init : list float) (schedule : list bool) :
  forall hp fr1 fr2, sound ic init hp fr1 -> sound ic init hp fr2 ->
    (forall a, private fr1 = Some a -> private fr2 <> Some a) ->
    interleaved fs t0 ic h n_steps schedule hp fr1 fr2
    = (pure_trace fs t0 init h n_steps
         (count_occ Bool.bool_dec schedule true) (snapshot hp fr1),
       pure_trace fs t0 init h n_steps
         (count_occ Bool.bool_dec schedule false) (snapshot hp fr2)).
Proof.
  induction schedule as [|b rest IH]; intros hp fr1 fr2 Hs1 Hs2 Hdis;
    [reflexivity|].
  destruct b; cbn [interleaved count_occ].
  - destruct (sound_step init hp fr1 Hs1)
      as (o & hp' & fr1' & -> & Hpure & Hs1' & Hother).
    destruct (Hother fr2 Hs2 Hdis) as (Hs2' & Hsnap & Hdis').
    rewrite (IH _ _ _ Hs1' Hs2' Hdis'), Hsnap.
    destruct (Bool.bool_dec true true); [|congruence].
    destruct (Bool.bool_dec true false); [discriminate|].
    cbn [pure_trace]. rewrite <- Hpure. reflexivity.
  - destruct (sound_step init hp fr2 Hs2)
      as (o & hp' & fr2' & -> & Hpure & Hs2' & Hother).
    destruct (Hother fr1 Hs1) as (Hs1' & Hsnap & Hdis').
    { intros a H2 H1. exact (Hdis a H1 H2). }
    rewrite (IH _ _ _ Hs1' Hs2'), Hsnap
      by (intros a H1 H2; exact (Hdis' a H2 H1)).
    destruct (Bool.bool_dec false false); [|congruence].
    destruct (Bool.bool_dec false true); [discriminate|].
    cbn [pure_trace]. rewrite <- Hpure. reflexivity.
Qed.
End Independence.

(** ** The classical scheme *)

(** C1: one advance computes the four slopes [k1..k4] of the classical
    fourth-order scheme and returns [x + (k1 + 2*k2 + 2*k3 + k4)/6] at
    time [t + h]; in a system every component function is evaluated at the
    same full intermediate state; and the system generator given one
    function and a one-element state does exactly what the scalar
    generator does. *)
Theorem rk4_step :
  (forall (g : float -> float -> float) (h t x : float),
     single_body (lift_scalar g) h t x
     = Ok ((t + h)%float,
           let k1 := (h * g t x)%float in
           let k2 := (h * g (t + h / 2) (x + k1 / 2))%float in
           let k3 := (h * g (t + h / 2) (x + k2 / 2))%float in
           let k4 := (h * g (t + h) (x + k3))%float in
           (x + (k1 + 2 * k2 + 2 * k3 + k4) / 6)%float))
  /\ (forall (gs : list pure_function) (t0 : float) (ic : loc) (h : float)
             (n_steps : Z) (hp : heap) (t : float) (x : list float)
             (cv : loc) (step : Z),
        hp !! cv = Some x -> length gs = length x -> step < n_steps ->
        system_next (map lift gs) t0 ic h n_steps hp
                    (YSuspended (length x) t cv step)
        = (Yield (scheme_time h t, length hp),
           <[cv := scheme_state gs h t x]> hp ++ [scheme_state gs h t x],
           YSuspended (length x) (scheme_time h t) cv (step + 1)))
  /\ (forall (f : callable) (t0 : float) (ic : loc) (h : float) (n_steps : Z)
             (hp : heap) (t x : float) (cv : loc) (step : Z),
        hp !! cv = Some [x] -> step < n_steps ->
        system_next [f] t0 ic h n_steps hp (YSuspended 1 t cv step)
        = match single_body f h t x with
          | Ok (t', x') =>
              (Yield (t', length hp), <[cv := [x']]> hp ++ [[x']],
               YSuspended 1 t' cv (step + 1))
          | Err e => (Raise e, hp, YFinished)
          end).
Proof.
  split; [|split].
  - intros g h t x. reflexivity.
  - intros gs t0 ic h n_steps hp t x cv step Hcv Hlen Hstep.
    rewrite system_next_suspended by (eapply lookup_lt_Some; exact Hcv).
    replace (step <? n_steps) with true by (symmetry; apply Z.ltb_lt; lia).
    rewrite (list_lookup_total_correct _ _ _ Hcv).
    rewrite stages_lift by exact Hlen.
    unfold scheme_k1, scheme_k2, scheme_k3, scheme_k4.
    rewrite update_cell_scheme by (rewrite length_slopes; exact Hlen).
    reflexivity.
  - intros f t0 ic h n_steps hp t x cv step Hcv Hstep.
    rewrite system_next_suspended by (eapply lookup_lt_Some; exact Hcv).
    replace (step <? n_steps) with true by (symmetry; apply Z.ltb_lt; lia).
    rewrite (list_lookup_total_correct _ _ _ Hcv).
    unfold stages, stage, half_shift, full_shift, single_body.
    cbn [mapM seq].
    destruct (f [t; x]) as [v1|e]; cbn [bind]; [|reflexivity].
    destruct (float_mul_value h v1) as [k1|e]; cbn [bind]; [|reflexivity].
    cbn [index lookup list_lookup bind].
    destruct (f [(t + h / 2)%float; (x + k1 / 2)%float]) as [v2|e];
      cbn [bind]; [|reflexivity].
    destruct (float_mul_value h v2) as [k2|e]; cbn [bind]; [|reflexivity].
    cbn [index lookup list_lookup bind].
    destruct (f [(t + h / 2)%float; (x + k2 / 2)%float]) as [v3|e];
      cbn [bind]; [|reflexivity].
    destruct (float_mul_value h v3) as [k3|e]; cbn [bind]; [|reflexivity].
    cbn [index lookup list_lookup bind].
    destruct (f [(t + h)%float; (x + k3)%float]) as [v4|e];
      cbn [bind]; [|reflexivity].
    destruct (float_mul_value h v4) as [k4|e]; cbn [bind]; [|reflexivity].
    reflexivity.
Qed.

Lemma rk4_step_witness :
  system_next (map lift [fun (t : float) (xs : list float) => t]) 0 0%nat 1
              1 [[2%float]] (YSuspended 1 0 0%nat 0)
  = (Yield (scheme_time 1 0, 1%nat),
     <[0%nat := scheme_state [fun (t : float) (xs : list float) => t] 1 0 [2%float]]>
       [[2%float]]
     ++ [scheme_state [fun (t : float) (xs : list float) => t] 1 0 [2%float]],
     YSuspended 1 (scheme_time 1 0) 0%nat (0 + 1)).
Proof.
  destruct rk4_step as (_ & Hsys & _).
  apply (Hsys [fun (t : float) (xs : list float) => t] 0%float 0%nat 1%float
              1 [[2%float]] 0%float [2%float] 0%nat 0);
    [reflexivity | reflexivity | lia].
Defined.

(** ** The number of samples *)

Lemma length_scalar_advances (g : float -> float -> float) (h : float)
    (n : nat) :
  forall t x, length (scalar_advances g h t x n) = n.
Proof.
  induction n as [|n IH]; intros t x; simpl; [reflexivity|].
  rewrite IH. reflexivity.
Qed.

Lemma length_system_advances (gs : list pure_function) (h : float) (n : nat) :
  forall t x, length (system_advances gs h t x n) = n.
Proof.
  induction n as [|n IH]; intros t x; simpl; [reflexivity|].
  rewrite IH. reflexivity.
Qed.

Lemma length_scheme_state (gs : list pure_function) (h t : float)
    (x : list float) :
  length gs = length x -> length (scheme_state gs h t x) = length x.
Proof.
  intros Hlen. unfold scheme_state, weighted_sum.
  unfold scheme_k1, scheme_k2, scheme_k3, scheme_k4.
  repeat (rewrite length_zip_with_l_eq; rewrite ?length_slopes; try lia).
Qed.

(** The pulls that follow a sample give its advances. *)
Lemma single_pulls_advances (g : float -> float -> float) (t0 x0 h : float)
    (n_steps : Z) (k : nat) :
  forall i t x, i + Z.of_nat k = n_steps ->
    single_pulls (lift_scalar g) t0 x0 h n_steps (S k) (SSuspended t x i)
    = (scalar_advances g h t x k, Exhausted).
Proof.
  induction k as [|k IH]; intros i t x Hi;
    rewrite single_pulls_S; cbn [single_next].
  - replace (i <? n_steps) with false by (symmetry; apply Z.ltb_ge; lia).
    reflexivity.
  - replace (i <? n_steps) with true by (symmetry; apply Z.ltb_lt; lia).
    change (single_body (lift_scalar g) h t x)
      with (Ok (scalar_advance g h t x) : result (float * float)).
    destruct (scalar_advance g h t x) as [t' x'] eqn:Hadv.
    rewrite IH by lia. cbn [scalar_advances]. rewrite Hadv. reflexivity.
Qed.

Lemma system_next_advance (gs : list pure_function) (t0 : float) (ic : loc)
    (h : float) (n_steps : Z) (hp : heap) (t : float) (x : list float)
    (cv : loc) (step : Z) :
  hp !! cv = Some x -> length gs = length x -> step < n_steps ->
  system_next (map lift gs) t0 ic h n_steps hp
              (YSuspended (length x) t cv step)
  = (Yield (scheme_time h t, length hp),
     <[cv := scheme_state gs h t x]> hp ++ [scheme_state gs h t x],
     YSuspended (length x) (scheme_time h t) cv (step + 1))
  /\ length (scheme_state gs h t x) = length x.
Proof.
  intros Hcv Hlen Hstep.
  split; [|apply length_scheme_state, Hlen].
  rewrite system_next_suspended by (eapply lookup_lt_Some; exact Hcv).
  replace (step <? n_steps) with true by (symmetry; apply Z.ltb_lt; lia).
  rewrite (list_lookup_total_correct _ _ _ Hcv).
  rewrite stages_lift by exact Hlen.
  unfold scheme_k1, scheme_k2, scheme_k3, scheme_k4.
  rewrite update_cell_scheme by (rewrite length_slopes; exact Hlen).
  reflexivity.
Qed.

Lemma system_pulls_advances (gs : list pure_function) (t0 : float) (ic : loc)
    (h : float) (n_steps : Z) (m : nat) (k : nat) :
  length gs = m ->
  forall step t x hp cv,
    step + Z.of_nat k = n_steps -> hp !! cv = Some x -> length x = m ->
    exists l hp',
      system_pulls (map lift gs) t0 ic h n_steps (S k) hp
                   (YSuspended m t cv step) = (l, Exhausted, hp')
      /\ map (fun s => (s.1.1, s.2)) l = system_advances gs h t x k.
Proof.
  intros Hgs. induction k as [|k IH]; intros step t x hp cv Hstep Hcv Hx;
    rewrite system_pulls_S.
  - rewrite system_next_suspended by (eapply lookup_lt_Some; exact Hcv).
    replace (step <? n_steps) with false by (symmetry; apply Z.ltb_ge; lia).
    exists [], hp. split; reflexivity.
  - rewrite <- Hx.
    destruct (system_next_advance gs t0 ic h n_steps hp t x cv step Hcv)
      as (-> & Hl); [lia | lia |].
    rewrite Hx.
    assert (Hcv' : (cv < length hp)%nat) by (eapply lookup_lt_Some; exact Hcv).
    destruct (IH (step + 1) (scheme_time h t) (scheme_state gs h t x)
                 (<[cv := scheme_state gs h t x]> hp ++ [scheme_state gs h t x])
                 cv) as (l & hp' & -> & Hsamples).
    + lia.
    + rewrite lookup_app_l by (rewrite length_insert; exact Hcv').
      apply list_lookup_insert_eq, Hcv'.
    + lia.
    + eexists _, hp'. split; [reflexivity|].
      cbn [map fst snd system_advances]. rewrite Hsamples. f_equal. f_equal.
      rewrite lookup_total_app_r by (rewrite length_insert; lia).
      rewrite length_insert, Nat.sub_diag. reflexivity.
Qed.

(** C2: with [n_steps >= 0], a run yields [(t0, x0)] first and, after it,
    the [n_steps] advances of the scheme, each made from the sample
    before, then stops: [n_steps + 1] samples in all, for the scalar and
    for the system generator; [run(f, 0, 5, 0.1, 10)] gives 11 samples
    of which the first is [(0, 5)], and [n_steps = 0] the initial sample
    alone. *)
Theorem run_sample_count :
  (forall (g : float -> float -> float) (t0 x0 h : float) (n_steps : Z),
     0 <= n_steps ->
     run_single (lift_scalar g) t0 x0 h n_steps
     = ((t0, x0) :: scalar_advances g h t0 x0 (Z.to_nat n_steps), Exhausted)
     /\ length ((t0, x0) :: scalar_advances g h t0 x0 (Z.to_nat n_steps))
        = (Z.to_nat n_steps + 1)%nat)
  /\ (forall (gs : list pure_function) (t0 : float) (ic : loc) (h : float)
             (n_steps : Z) (hp : heap) (x0 : list float),
        0 <= n_steps -> hp !! ic = Some x0 -> length gs = length x0 ->
        exists l hp',
          run_system (map lift gs) t0 ic h n_steps hp = (l, Exhausted, hp')
          /\ map (fun s => (s.1.1, s.2)) l
             = (t0, x0) :: system_advances gs h t0 x0 (Z.to_nat n_steps)
          /\ length l = (Z.to_nat n_steps + 1)%nat)
  /\ (forall g : float -> float -> float,
        run_single (lift_scalar g) 0 5 0.1 10
        = ((0%float, 5%float) :: scalar_advances g 0.1 0 5 10, Exhausted)
        /\ length ((0%float, 5%float) :: scalar_advances g 0.1 0 5 10)
           = 11%nat)
  /\ (forall (f : callable) (t0 x0 h : float),
        run_single f t0 x0 h 0 = ([(t0, x0)], Exhausted))
  /\ (forall (fs : list callable) (t0 : float) (ic : loc) (h : float)
             (hp : heap),
        run_system fs t0 ic h 0 hp
        = ([(t0, S (length hp), hp !!! ic)], Exhausted,
           hp ++ [hp !!! ic; hp !!! ic])).
Proof.
  assert (Hsingle : forall (g : float -> float -> float) (t0 x0 h : float)
                           (n_steps : Z),
     0 <= n_steps ->
     run_single (lift_scalar g) t0 x0 h n_steps
     = ((t0, x0) :: scalar_advances g h t0 x0 (Z.to_nat n_steps), Exhausted)
     /\ length ((t0, x0) :: scalar_advances g h t0 x0 (Z.to_nat n_steps))
        = (Z.to_nat n_steps + 1)%nat).
  { intros g t0 x0 h n_steps Hn. split.
    - unfold run_single.
      replace (Z.to_nat n_steps + 2)%nat with (S (S (Z.to_nat n_steps)))
        by lia.
      rewrite single_pulls_S. cbn [single_next].
      rewrite single_pulls_advances by lia. reflexivity.
    - simpl. rewrite length_scalar_advances. lia. }
  split; [exact Hsingle|]. split; [|split; [|split]].
  - intros gs t0 ic h n_steps hp x0 Hn Hic Hlen. unfold run_system.
    replace (Z.to_nat n_steps + 2)%nat with (S (S (Z.to_nat n_steps))) by lia.
    rewrite system_pulls_S, system_next_created.
    rewrite (list_lookup_total_correct _ _ _ Hic).
    destruct (system_pulls_advances gs t0 ic h n_steps (length x0)
                (Z.to_nat n_steps) Hlen 0 t0 x0 (hp ++ [x0; x0]) (length hp))
      as (l & hp' & -> & Hsamples).
    + lia.
    + rewrite lookup_app_r by lia. rewrite Nat.sub_diag. reflexivity.
    + reflexivity.
    + eexists _, hp'. split; [reflexivity|].
      assert (Hfirst : (hp ++ [x0; x0]) !!! S (length hp) = x0).
      { rewrite lookup_total_app_r by lia.
        replace (S (length hp) - length hp)%nat with 1%nat by lia.
        reflexivity. }
      split.
      * cbn [map fst snd]. rewrite Hsamples, Hfirst. reflexivity.
      * simpl. rewrite <- (length_map (fun s => (s.1.1, s.2)) l), Hsamples.
        rewrite length_system_advances. lia.
  - intros g. destruct (Hsingle g 0%float 5%float 0.1%float 10) as (Hrun & Hlen);
      [lia|].
    split; [exact Hrun | exact Hlen].
  - intros f t0 x0 h. reflexivity.
  - intros fs t0 ic h hp. unfold run_system.
    change (Z.to_nat 0 + 2)%nat with 2%nat.
    rewrite system_pulls_S, system_next_created, system_pulls_S.
    rewrite system_next_suspended by (rewrite length_app; simpl; lia).
    change (0 <? 0) with false. cbv iota.
    rewrite lookup_total_app_r by lia.
    replace (S (length hp) - length hp)%nat with 1%nat by lia. reflexivity.
Qed.

Lemma run_sample_count_witness :
  exists l hp',
    run_system (map lift [fun (t : float) (xs : list float) => t;
                          fun (t : float) (xs : list float) => (2 * t)%float])
               0 0%nat 0.5 3 [[1%float; 2%float]]
    = (l, Exhausted, hp')
    /\ map (fun s => (s.1.1, s.2)) l
       = (0%float, [1%float; 2%float])
         :: system_advances
              [fun (t : float) (xs : list float) => t;
               fun (t : float) (xs : list float) => (2 * t)%float]
              0.5 0 [1%float; 2%float] (Z.to_nat 3)
    /\ length l = (Z.to_nat 3 + 1)%nat.
Proof.
  destruct run_sample_count as (_ & Hsystem & _).
  apply (Hsystem [fun (t : float) (xs : list float) => t;
                  fun (t : float) (xs : list float) => (2 * t)%float]
                 0%float 0%nat 0.5%float 3 [[1%float; 2%float]]
                 [1%float; 2%float]).
  - lia.
  - reflexivity.
  - reflexivity.
Defined.

(** ** A negative number of steps *)

(** C5: with [n_steps < 0] the loop over [range(n_steps)] is empty: the
    run yields the initial sample and stops, and raises nothing. *)
Theorem negative_step_count_yields_initial_sample :
  (forall (f : callable) (t0 x0 h : float) (n_steps : Z),
     n_steps < 0 ->
     run_single f t0 x0 h n_steps = ([(t0, x0)], Exhausted))
  /\ (forall (fs : list callable) (t0 : float) (ic : loc) (h : float)
             (n_steps : Z) (hp : heap),
        n_steps < 0 ->
        run_system fs t0 ic h n_steps hp
        = ([(t0, S (length hp), hp !!! ic)], Exhausted,
           hp ++ [hp !!! ic; hp !!! ic])).
Proof.
  split.
  - intros f t0 x0 h n_steps Hn. unfold run_single.
    replace (Z.to_nat n_steps + 2)%nat with 2%nat by lia.
    rewrite single_pulls_S. cbn [single_next].
    rewrite single_pulls_S. cbn [single_next].
    replace (0 <? n_steps) with false by (symmetry; apply Z.ltb_ge; lia).
    reflexivity.
  - intros fs t0 ic h n_steps hp Hn. unfold run_system.
    replace (Z.to_nat n_steps + 2)%nat with 2%nat by lia.
    rewrite system_pulls_S, system_next_created, system_pulls_S.
    rewrite system_next_suspended by (rewrite length_app; simpl; lia).
    replace (0 <? n_steps) with false by (symmetry; apply Z.ltb_ge; lia).
    rewrite lookup_total_app_r by lia.
    replace (S (length hp) - length hp)%nat with 1%nat by lia. reflexivity.
Qed.

Lemma negative_step_count_yields_initial_sample_witness :
  run_single (logistic_rhs logistic_defaults) 0 10 0.1 (-3)
  = ([(0%float, 10%float)], Exhausted).
Proof.
  destruct negative_step_count_yields_initial_sample as (Hsingle & _).
  apply Hsingle. lia.
Defined.

Lemma negative_step_count_counterexample :
  run_single (logistic_rhs logistic_defaults) 0 10 0.1 (-1)
  = ([(0%float, 10%float)], Exhausted)
  /\ run_system lotka_volterra_rhs 0 0%nat 0.1 (-1) [[10%float; 5%float]]
     = ([(0%float, 2%nat, [10%float; 5%float])], Exhausted,
        [[10%float; 5%float]; [10%float; 5%float]; [10%float; 5%float]]).
Proof. split; vm_compute; reflexivity. Qed.

(** ** Exceptions of the right-hand side *)

(** C7: an exception raised while a step is computed is the exception
    that a call of a right-hand side (or the product of [h] with what it
    returned) raised, unchanged, or the [IndexError] of a list too short;
    the suspended generator that meets it, of one equation or of a
    system, raises it from that [next()] and is finished. *)
Theorem rhs_exception_propagates :
  (forall (f : callable) (t0 x0 h : float) (n_steps : Z) (t x : float)
          (i : Z) (e : exn),
     i < n_steps -> single_body f h t x = Err e ->
     single_next f t0 x0 h n_steps (SSuspended t x i) = (Raise e, SFinished))
  /\ (forall (f : callable) (t0 x0 h : float) (n_steps : Z)
             (l : list (float * float)) (e : exn),
        run_single f t0 x0 h n_steps = (l, Raised e) ->
        raised_by f h e /\ exists l', l = (t0, x0) :: l')
  /\ (forall (fs : list callable) (t0 : float) (ic : loc) (h : float)
             (n_steps : Z) (hp : heap) (l : list (float * loc * list float))
             (e : exn) (hp' : heap),
        run_system fs t0 ic h n_steps hp = (l, Raised e, hp') ->
        ((exists f, f ∈ fs /\ raised_by f h e) \/ e = IndexError)
        /\ exists l', l = (t0, S (length hp), hp !!! ic) :: l')
  /\ (forall (fs : list callable) (t0 : float) (ic : loc) (h : float)
             (n_steps : Z) (hp : heap) (n : nat) (t : float) (cv : loc)
             (step : Z) (e : exn),
        step < n_steps -> stages fs h n t (hp !!! cv) = Err e ->
        system_next fs t0 ic h n_steps hp (YSuspended n t cv step)
        = (Raise e, hp, YFinished)
        /\ system_next fs t0 ic h n_steps hp YFinished
           = (StopIteration, hp, YFinished)).
Proof.
  split; [|split; [|split]]; cycle 3.
  - intros fs t0 ic h n_steps hp n t cv step e Hstep Hst.
    split; [|reflexivity]. cbn [system_next].
    replace (step <? n_steps) with true by (symmetry; apply Z.ltb_lt; lia).
    rewrite Hst. reflexivity.
  - intros f t0 x0 h n_steps t x i e Hi Hb. cbn [single_next].
    replace (i <? n_steps) with true by (symmetry; apply Z.ltb_lt; lia).
    rewrite Hb. reflexivity.
  - intros f t0 x0 h n_steps l e Hrun. split.
    + apply (single_pulls_raised _ _ _ _ _ _ _ _ _ Hrun).
    + unfold run_single in Hrun.
      replace (Z.to_nat n_steps + 2)%nat with (S (S (Z.to_nat n_steps))) in Hrun by lia.
      rewrite single_pulls_S in Hrun. cbn [single_next] in Hrun.
      destruct (single_pulls f t0 x0 h n_steps _ _) as [l' e'].
      injection Hrun as <- _. eauto.
  - intros fs t0 ic h n_steps hp l e hp' Hrun. split.
    + refine (system_pulls_raised _ _ _ _ _ _ _ YCreated _ _ _ _ Hrun).
      exact I.
    + unfold run_system in Hrun.
      replace (Z.to_nat n_steps + 2)%nat with (S (S (Z.to_nat n_steps))) in Hrun by lia.
      rewrite system_pulls_S, system_next_created in Hrun.
      destruct (system_pulls fs t0 ic h n_steps _ _ _) as [[l' e'] hp''].
      injection Hrun as <- _ _. eexists.
      rewrite lookup_total_app_r by lia.
      replace (S (length hp) - length hp)%nat with 1%nat by lia. reflexivity.
Qed.

Lemma rhs_exception_propagates_witness :
  raised_by (logistic_rhs logistic_zero_K) 0.1 ZeroDivisionError
  /\ exists l', [(0%float, 10%float)] = (0%float, 10%float) :: l'.
Proof.
  destruct rhs_exception_propagates as (_ & Hrun & _).
  apply (Hrun (logistic_rhs logistic_zero_K) 0%float 10%float 0.1%float 3).
  vm_compute. reflexivity.
Defined.

Lemma rhs_exception_counterexample :
  run_single (logistic_rhs logistic_zero_K) 0 10 0.1 3
  = ([(0%float, 10%float)], Raised ZeroDivisionError)
  /\ exn_class ZeroDivisionError = "ZeroDivisionError".
Proof. split; vm_compute; reflexivity. Qed.

(** ** Independence of runs *)

(** C8: two generators made by the same call on the same argument list,
    pulled in any order on one store, each produce what a generator
    pulled alone produces: the same times, the same state vectors, the
    same end. *)
Theorem runs_are_independent :
  forall (fs : list callable) (t0 : float) (ic : loc) (h : float)
         (n_steps : Z) (hp : heap) (schedule : list bool),
    (ic < length hp)%nat ->
    interleaved fs t0 ic h n_steps schedule hp YCreated YCreated
    = (system_trace fs t0 ic h n_steps
         (count_occ Bool.bool_dec schedule true) hp YCreated,
       system_trace fs t0 ic h n_steps
         (count_occ Bool.bool_dec schedule false) hp YCreated).
Proof.
  intros fs t0 ic h n_steps hp schedule Hic.
  assert (Hs : sound ic (hp !!! ic) hp YCreated).
  { repeat split; [exact Hic | discriminate]. }
  rewrite (interleaved_pure fs t0 ic h n_steps (hp !!! ic) schedule hp
             YCreated YCreated Hs Hs) by discriminate.
  rewrite !(system_trace_pure fs t0 ic h n_steps (hp !!! ic) _ hp YCreated Hs).
  reflexivity.
Qed.

Lemma runs_are_independent_witness :
  interleaved lotka_volterra_rhs 0 0%nat 0.1 2 [true; false; false; true]
              [[10%float; 5%float]] YCreated YCreated
  = (system_trace lotka_volterra_rhs 0 0%nat 0.1 2 2 [[10%float; 5%float]]
                  YCreated,
     system_trace lotka_volterra_rhs 0 0%nat 0.1 2 2 [[10%float; 5%float]]
                  YCreated).
Proof.
  apply (runs_are_independent lotka_volterra_rhs 0%float 0%nat 0.1%float 2
           [[10%float; 5%float]] [true; false; false; true]).
  simpl. lia.
Defined.

(** ** No state shared with the consumer *)

(** C10: whatever the number of pulls, every list that was in the store
    when the generator was made (the caller's [initial_conditions] among
    them) holds afterwards what it held, every list yielded is a new one,
    no list is yielded twice, and every list yielded still holds at the
    end what it held when it was yielded. *)
Theorem stepper_shares_no_state :
  forall (fs : list callable) (t0 : float) (ic : loc) (h : float)
         (n_steps : Z) (fuel : nat) (hp : heap)
         (l : list (float * loc * list float)) (e : ending) (hp' : heap),
    system_pulls fs t0 ic h n_steps fuel hp YCreated = (l, e, hp') ->
    (forall a, (a < length hp)%nat -> hp' !! a = hp !! a)
    /\ Forall (fun s => (length hp <= s.1.2)%nat /\ hp' !! s.1.2 = Some s.2) l
    /\ NoDup (map (fun s => s.1.2) l).
Proof.
  intros fs t0 ic h n_steps fuel hp l e hp' Hrun.
  destruct (system_pulls_frame fs t0 ic h n_steps fuel hp YCreated l e hp' I Hrun)
    as (_ & Hframe & Hall & Hnd).
  split; [|split; assumption].
  intros a Ha. apply Hframe; [exact Ha | discriminate].
Qed.

Lemma stepper_shares_no_state_witness :
  (system_pulls lotka_volterra_rhs 0 0%nat 0.1 2 3 [[10%float; 5%float]]
                YCreated).2 !! 0%nat
  = Some [10%float; 5%float].
Proof.
  destruct (system_pulls lotka_volterra_rhs 0 0%nat 0.1 2 3
                         [[10%float; 5%float]] YCreated)
    as [[l e] hp'] eqn:Hrun.
  destruct (stepper_shares_no_state _ _ _ _ _ _ _ _ _ _ Hrun) as (Hframe & _).
  simpl. rewrite Hframe; [reflexivity | simpl; lia].
Defined.

(** ** Names in evaluation *)





(** ** Parameters as text *)

(** C3: parameter values are written into the text of the equation; a
    parameter name that is the beginning of another is replaced inside
    it. With [r = 0.5] and [r1 = 2.0], the equation [r1*x] becomes the
    text [0.51*x] and the built function returns [0.51] at [x = 1], where
    the equation with each name bound to its own value gives [2.0]. *)
Theorem parameter_names_are_substituted_as_text :
  substitute prefixed_values "r1*x" = "0.51*x"
  /\ (exists f,
        create_model_functions [("prefixed", prefixed)] "prefixed"
                               prefixed_values = Ok [f]
        /\ f [0%float; 1%float] = Ok (VFloat 0.51))
  /\ eval "r1*x" [("t", VFloat 0); ("x", VFloat 1);
                  ("r", VFloat 0.5); ("r1", VFloat 2)]
     = Ok (VFloat 2).
Proof.
  split; [vm_compute; reflexivity|]. split.
  - eexists. split; [reflexivity|]. vm_compute. reflexivity.
  - vm_compute. reflexivity.
Qed.

(** ** A parameter left out *)

(** C4: building never fails for a model of the registry, whatever the
    mapping of parameters holds: it gives one function for each
    equation. *)
Theorem building_never_checks_parameters :
  forall (registry : list (string * model_info)) (model_key : string)
         (info : model_info) (values : list (string * float)),
    dict_get registry model_key = Some info ->
    exists fs,
      create_model_functions registry model_key values = Ok fs
      /\ length fs = length (equations info).
Proof.
  intros registry model_key info values Hget.
  unfold create_model_functions. rewrite Hget.
  eexists. split; [reflexivity|]. apply length_map.
Qed.

Lemma building_never_checks_parameters_witness :
  exists fs,
    create_model_functions models "logistic" logistic_without_K = Ok fs
    /\ length fs = length (equations logistic).
Proof.
  apply (building_never_checks_parameters models "logistic" logistic
                                          logistic_without_K).
  reflexivity.
Defined.

Lemma missing_parameter_counterexample :
  create_model_functions models "logistic" logistic_without_K
  = Ok [lambda_x "0.5*x*(1 - x/K)"]
  /\ run_single (logistic_rhs logistic_without_K) 0 10 0.1 5
     = ([(0%float, 10%float)], Raised (NameError "K")).
Proof. split; vm_compute; reflexivity. Qed.

(** ** Names that are not bound *)







(** ** The registry *)

Lemma consistent_spec (m : model_info) :
  consistent m = true ->
  length (variables m) = length (equations m)
  /\ length (equations m) = length (initial_conditions m)
  /\ forall eq, eq ∈ equations m ->
       exists e, parse eq = Some e
                 /\ forall id, id ∈ names_of e ->
                      id ∈ variables m \/ id ∈ parameters m.
Proof.
  unfold consistent. intros H.
  apply andb_true_iff in H as [H Heqs]. apply andb_true_iff in H as [Hv Hi].
  apply Nat.eqb_eq in Hv. apply Nat.eqb_eq in Hi.
  split; [exact Hv|]. split; [exact Hi|].
  intros eq Hin. rewrite forallb_forall in Heqs.
  specialize (Heqs eq (proj1 (list_elem_of_In _ _) Hin)).
  unfold names_declared in Heqs. destruct (parse eq) as [e|]; [|discriminate].
  exists e. split; [reflexivity|]. intros id Hid.
  rewrite forallb_forall in Heqs.
  specialize (Heqs id (proj1 (list_elem_of_In _ _) Hid)).
  apply bool_decide_eq_true in Heqs. apply elem_of_app in Heqs. exact Heqs.
Qed.

(** C9: every model of the registry has as many variables as equations
    and as initial conditions, and every name in each of its equations
    is one of its variables or one of its parameters. *)
Theorem registry_is_consistent :
  forall (key : string) (m : model_info),
    (key, m) ∈ models ->
    length (variables m) = length (equations m)
    /\ length (equations m) = length (initial_conditions m)
    /\ forall eq, eq ∈ equations m ->
         exists e, parse eq = Some e
                   /\ forall id, id ∈ names_of e ->
                        id ∈ variables m \/ id ∈ parameters m.
Proof.
  intros key m Hin. apply consistent_spec.
  assert (Hall : forallb consistent (map snd models) = true)
    by (vm_compute; reflexivity).
  rewrite forallb_forall in Hall. apply Hall.
  apply in_map_iff. exists (key, m). split; [reflexivity|].
  apply list_elem_of_In. exact Hin.
Qed.

Lemma registry_is_consistent_witness :
  length (variables sir) = length (equations sir)
  /\ length (equations sir) = length (initial_conditions sir)
  /\ forall eq, eq ∈ equations sir ->
       exists e, parse eq = Some e
                 /\ forall id, id ∈ names_of e ->
                      id ∈ variables sir \/ id ∈ parameters sir.
Proof.
  apply (registry_is_consistent "sir" sir).
  unfold models. do 3 apply list_elem_of_further. apply list_elem_of_here.
Defined.

(** * Further properties of the code *)

(** ** The times of the samples *)

Lemma single_body_time (f : callable) (h t x t' x' : float) :
  single_body f h t x = Ok (t', x') -> t' = (t + h)%float.
Proof.
  unfold single_body. intros H.
  repeat (apply bind_ok in H as (? & _ & H)).
  injection H as <- _. reflexivity.
Qed.

Lemma single_pulls_times (f : callable) (t0 x0 h : float) (n_steps : Z)
    (fuel : nat) :
  forall t x i,
    map fst (single_pulls f t0 x0 h n_steps fuel (SSuspended t x i)).1
    = times (t + h)%float h
        (length (single_pulls f t0 x0 h n_steps fuel (SSuspended t x i)).1).
Proof.
  induction fuel as [|fuel IH]; intros t x i; [reflexivity|].
  rewrite single_pulls_S. cbn [single_next].
  destruct (i <? n_steps); [|reflexivity].
  destruct (single_body f h t x) as [[t' x']|e] eqn:Hb; [|reflexivity].
  apply single_body_time in Hb as ->.
  specialize (IH (t + h)%float x' (i + 1)).
  destruct (single_pulls f t0 x0 h n_steps fuel _) as [l e].
  simpl in *. rewrite IH. reflexivity.
Qed.

Lemma system_pulls_times (fs : list callable) (t0 : float) (ic : loc)
    (h : float) (n_steps : Z) (fuel : nat) :
  forall hp n t cv step, (cv < length hp)%nat ->
    map (fun s => s.1.1)
        (system_pulls fs t0 ic h n_steps fuel hp (YSuspended n t cv step)).1.1
    = times (t + h)%float h
        (length (system_pulls fs t0 ic h n_steps fuel hp
                              (YSuspended n t cv step)).1.1).
Proof.
  induction fuel as [|fuel IH]; intros hp n t cv step Hcv; [reflexivity|].
  rewrite system_pulls_S, system_next_suspended by exact Hcv.
  destruct (step <? n_steps); [|reflexivity].
  destruct (stages fs h n t (hp !!! cv)) as [[[[k1 k2] k3] k4]|e];
    [|reflexivity].
  destruct (update_cell (hp !!! cv) k1 k2 k3 k4 (seq 0 n)) as [cur' [e|]];
    [reflexivity|].
  specialize (IH (<[cv := cur']> hp ++ [cur']) n (t + h)%float cv (step + 1)).
  destruct (system_pulls fs t0 ic h n_steps fuel _ _) as [[l e] hp'].
  simpl in *. rewrite IH; [reflexivity|].
  rewrite length_app, length_insert. lia.
Qed.

(** X1: the times of the samples of a run are [t0], [t0 + h],
    [(t0 + h) + h], ...: each is the floating-point sum of the one before
    and [h], whatever the right-hand sides return or raise. *)
Theorem sample_times_accumulate :
  (forall (f : callable) (t0 x0 h : float) (n_steps : Z),
     map fst (run_single f t0 x0 h n_steps).1
     = times t0 h (length (run_single f t0 x0 h n_steps).1))
  /\ (forall (fs : list callable) (t0 : float) (ic : loc) (h : float)
             (n_steps : Z) (hp : heap),
        map (fun s => s.1.1) (run_system fs t0 ic h n_steps hp).1.1
        = times t0 h (length (run_system fs t0 ic h n_steps hp).1.1)).
Proof.
  split.
  - intros f t0 x0 h n_steps. unfold run_single.
    replace (Z.to_nat n_steps + 2)%nat with (S (S (Z.to_nat n_steps))) by lia.
    rewrite single_pulls_S. cbn [single_next].
    pose proof (single_pulls_times f t0 x0 h n_steps (S (Z.to_nat n_steps))
                  t0 x0 0) as H.
    destruct (single_pulls f t0 x0 h n_steps _ _) as [l e].
    simpl in *. rewrite H. reflexivity.
  - intros fs t0 ic h n_steps hp. unfold run_system.
    replace (Z.to_nat n_steps + 2)%nat with (S (S (Z.to_nat n_steps))) by lia.
    rewrite system_pulls_S, system_next_created.
    pose proof (system_pulls_times fs t0 ic h n_steps (S (Z.to_nat n_steps))
                  (hp ++ [hp !!! ic; hp !!! ic]) (length (hp !!! ic)) t0
                  (length hp) 0) as H.
    destruct (system_pulls fs t0 ic h n_steps _ _ _) as [[l e] hp'].
    simpl in *. rewrite H; [reflexivity|].
    rewrite length_app. simpl. lia.
Qed.

(** ** The length of the states *)

Lemma update_cell_length (k1 k2 k3 k4 : list float) (indices : list nat) :
  forall cur, length (update_cell cur k1 k2 k3 k4 indices).1 = length cur.
Proof.
  induction indices as [|i rest IH]; intros cur; simpl; [reflexivity|].
  destruct (updated cur k1 k2 k3 k4 i) as [v|e]; [|reflexivity].
  rewrite IH. apply length_insert.
Qed.

Lemma system_pulls_lengths (fs : list callable) (t0 : float) (ic : loc)
    (h : float) (n_steps : Z) (fuel : nat) (len : nat) :
  forall hp n t cv step, (cv < length hp)%nat -> length (hp !!! cv) = len ->
    Forall (fun s => length s.2 = len)
      (system_pulls fs t0 ic h n_steps fuel hp (YSuspended n t cv step)).1.1.
Proof.
  induction fuel as [|fuel IH]; intros hp n t cv step Hcv Hlen;
    [constructor|].
  rewrite system_pulls_S, system_next_suspended by exact Hcv.
  destruct (step <? n_steps); [|constructor].
  destruct (stages fs h n t (hp !!! cv)) as [[[[k1 k2] k3] k4]|e];
    [|constructor].
  pose proof (update_cell_length k1 k2 k3 k4 (seq 0 n) (hp !!! cv)) as Hl.
  destruct (update_cell (hp !!! cv) k1 k2 k3 k4 (seq 0 n)) as [cur' [e|]];
    [constructor|].
  simpl in Hl.
  assert (Hcv' : (cv < length (<[cv := cur']> hp ++ [cur']))%nat)
    by (rewrite length_app, length_insert; lia).
  assert (Hcur : (<[cv := cur']> hp ++ [cur']) !!! cv = cur').
  { rewrite lookup_total_app_l by (rewrite length_insert; exact Hcv).
    apply list_lookup_total_insert_eq, Hcv. }
  specialize (IH (<[cv := cur']> hp ++ [cur']) n (t + h)%float cv (step + 1)
                 Hcv').
  destruct (system_pulls fs t0 ic h n_steps fuel _ _) as [[l e] hp'].
  simpl in *. constructor.
  - simpl. rewrite lookup_total_app_r by (rewrite length_insert; lia).
    rewrite length_insert, Nat.sub_diag. simpl. lia.
  - apply IH. rewrite Hcur. lia.
Qed.

(** X2: every state vector that the system generator yields has the
    length of the list of initial conditions, whatever the number of
    functions and whatever they return or raise. *)
Theorem yielded_states_keep_length :
  forall (fs : list callable) (t0 : float) (ic : loc) (h : float)
         (n_steps : Z) (hp : heap),
    Forall (fun s => length s.2 = length (hp !!! ic))
           (run_system fs t0 ic h n_steps hp).1.1.
Proof.
  intros fs t0 ic h n_steps hp. unfold run_system.
  replace (Z.to_nat n_steps + 2)%nat with (S (S (Z.to_nat n_steps))) by lia.
  rewrite system_pulls_S, system_next_created.
  pose proof (system_pulls_lengths fs t0 ic h n_steps (S (Z.to_nat n_steps))
                (length (hp !!! ic)) (hp ++ [hp !!! ic; hp !!! ic])
                (length (hp !!! ic)) t0 (length hp) 0) as H.
  destruct (system_pulls fs t0 ic h n_steps _ _ _) as [[l e] hp'].
  simpl in *. constructor.
  - simpl. rewrite lookup_total_app_r by lia.
    replace (S (length hp) - length hp)%nat with 1%nat by lia. reflexivity.
  - apply H.
    + rewrite length_app. simpl. lia.
    + rewrite lookup_total_app_r by lia. rewrite Nat.sub_diag. reflexivity.
Qed.

(** ** Fewer functions than variables *)

Lemma mapM_ok_all {A B : Type} (g : A -> result B) (l : list A) (bs : list B) :
  mapM g l = Ok bs -> Forall (fun a => exists b, g a = Ok b) l.
Proof.
  revert bs. induction l as [|a l IH]; intros bs; simpl; [constructor|].
  intros H. apply bind_ok in H as (b & Hb & H).
  apply bind_ok in H as (bs' & Hbs & _).
  constructor; [eauto | apply (IH bs' Hbs)].
Qed.

Lemma shift_short (g : float -> float -> float) (n : nat) (cur k : list float) :
  (length k < n)%nat ->
  mapM (fun i => let* c := index cur i in
                 let* a := index k i in Ok (g c a)) (seq 0 n) = Err IndexError.
Proof.
  intros Hk.
  destruct (mapM (fun i => let* c := index cur i in
                           let* a := index k i in Ok (g c a)) (seq 0 n))
    as [r|e] eqn:Hm.
  - exfalso. apply mapM_ok_all in Hm. rewrite Forall_forall in Hm.
    destruct (Hm (length k)) as (b & Hb); [apply elem_of_seq; lia|].
    apply bind_ok in Hb as (c & _ & Hb). apply bind_ok in Hb as (a & Ha & _).
    unfold index in Ha. rewrite (lookup_ge_None_2 k (length k)) in Ha by lia.
    discriminate.
  - f_equal. apply (shift_err _ _ _ _ _ Hm).
Qed.

(** X3: with fewer functions than initial conditions and at least one
    step asked for, the system generator yields the initial sample and
    raises [IndexError] from the first advance. *)
Theorem too_few_functions_raise_IndexError :
  forall (fs : list callable) (t0 : float) (ic : loc) (h : float)
         (n_steps : Z) (hp : heap) (x0 : list float),
    0 < n_steps -> hp !! ic = Some x0 ->
    Forall (total_on h (length x0)) fs -> (length fs < length x0)%nat ->
    (run_system fs t0 ic h n_steps hp).1
    = ([(t0, S (length hp), x0)], Raised IndexError).
Proof.
  intros fs t0 ic h n_steps hp x0 Hn Hic Hfs Hlen. unfold run_system.
  replace (Z.to_nat n_steps + 2)%nat with (S (S (Z.to_nat n_steps))) by lia.
  rewrite system_pulls_S, system_next_created.
  rewrite (list_lookup_total_correct _ _ _ Hic).
  rewrite system_pulls_S.
  rewrite system_next_suspended by (rewrite length_app; simpl; lia).
  replace (0 <? n_steps) with true by (symmetry; apply Z.ltb_lt; lia).
  rewrite lookup_total_app_r by lia. rewrite Nat.sub_diag.
  cbn [lookup_total list_lookup_total].
  unfold stages.
  destruct (stage_total fs h t0 x0 Hfs) as (k1 & -> & Hk1). cbn [bind].
  unfold half_shift. rewrite shift_short by lia. cbn [bind].
  rewrite lookup_total_app_r by lia.
  replace (S (length hp) - length hp)%nat with 1%nat by lia. reflexivity.
Qed.

Lemma too_few_functions_raise_IndexError_witness :
  (run_system [lift (fun t xs => t)] 0 0%nat 1 1 [[1%float; 2%float]]).1
  = ([(0%float, 2%nat, [1%float; 2%float])], Raised IndexError).
Proof.
  apply (too_few_functions_raise_IndexError [lift (fun t xs => t)] 0%float
           0%nat 1%float 1 [[1%float; 2%float]] [1%float; 2%float]).
  - lia.
  - reflexivity.
  - constructor; [|constructor]. intros t xs _.
    exists (VFloat t), (1 * t)%float. split; reflexivity.
  - simpl. lia.
Defined.

(** ** Runs of different lengths *)

Lemma single_pulls_prefix (f : callable) (t0 x0 h : float) (n n' : Z) (k : nat) :
  forall (k' : nat) (i : Z) (t x : float),
    n <= n' -> i + Z.of_nat k = n -> i + Z.of_nat k' = n' ->
    (single_pulls f t0 x0 h n (S k) (SSuspended t x i)).1
    = take k (single_pulls f t0 x0 h n' (S k') (SSuspended t x i)).1.
Proof.
  induction k as [|k IH]; intros k' i t x Hle Hk Hk';
    rewrite (single_pulls_S f t0 x0 h n); cbn [single_next].
  - replace (i <? n) with false by (symmetry; apply Z.ltb_ge; lia).
    reflexivity.
  - replace (i <? n) with true by (symmetry; apply Z.ltb_lt; lia).
    destruct k' as [|k']; [lia|].
    rewrite (single_pulls_S f t0 x0 h n'); cbn [single_next].
    replace (i <? n') with true by (symmetry; apply Z.ltb_lt; lia).
    destruct (single_body f h t x) as [[t' x']|e]; [|reflexivity].
    assert (H1 : i + 1 + Z.of_nat k = n) by lia.
    assert (H2 : i + 1 + Z.of_nat k' = n') by lia.
    specialize (IH k' (i + 1) t' x' Hle H1 H2).
    destruct (single_pulls f t0 x0 h n (S k) _) as [l e].
    destruct (single_pulls f t0 x0 h n' (S k') _) as [l' e'].
    simpl in *. rewrite IH. reflexivity.
Qed.

Lemma system_pulls_prefix (fs : list callable) (t0 : float) (ic : loc)
    (h : float) (n n' : Z) (k : nat) :
  forall (k' : nat) (step : Z) (hp : heap) (m : nat) (t : float) (cv : loc),
    n <= n' -> step + Z.of_nat k = n -> step + Z.of_nat k' = n' ->
    (cv < length hp)%nat ->
    (system_pulls fs t0 ic h n (S k) hp (YSuspended m t cv step)).1.1
    = take k (system_pulls fs t0 ic h n' (S k') hp
                           (YSuspended m t cv step)).1.1.
Proof.
  induction k as [|k IH]; intros k' step hp m t cv Hle Hk Hk' Hcv;
    rewrite (system_pulls_S fs t0 ic h n), system_next_suspended by exact Hcv.
  - replace (step <? n) with false by (symmetry; apply Z.ltb_ge; lia).
    reflexivity.
  - replace (step <? n) with true by (symmetry; apply Z.ltb_lt; lia).
    destruct k' as [|k']; [lia|].
    rewrite (system_pulls_S fs t0 ic h n'), system_next_suspended
      by exact Hcv.
    replace (step <? n') with true by (symmetry; apply Z.ltb_lt; lia).
    destruct (stages fs h m t (hp !!! cv)) as [[[[k1 k2] k3] k4]|e];
      [|reflexivity].
    destruct (update_cell (hp !!! cv) k1 k2 k3 k4 (seq 0 m)) as [cur' [e|]];
      [reflexivity|].
    assert (H1 : step + 1 + Z.of_nat k = n) by lia.
    assert (H2 : step + 1 + Z.of_nat k' = n') by lia.
    specialize (IH k' (step + 1) (<[cv := cur']> hp ++ [cur']) m
                   (t + h)%float cv Hle H1 H2).
    destruct (system_pulls fs t0 ic h n (S k) _ _) as [[l e] hp1].
    destruct (system_pulls fs t0 ic h n' (S k') _ _) as [[l' e'] hp1'].
    simpl in *. rewrite IH; [reflexivity|].
    rewrite length_app, length_insert. lia.
Qed.

(** X6: asking for more steps only extends a run: the samples of a run
    of [n] steps are the first [n + 1] samples of any run of [n' >= n]
    steps from the same start (fewer when the longer run raises before). *)
Theorem longer_run_extends_shorter :
  (forall (f : callable) (t0 x0 h : float) (n n' : Z),
     0 <= n -> n <= n' ->
     (run_single f t0 x0 h n).1
     = take (Z.to_nat n + 1) (run_single f t0 x0 h n').1)
  /\ (forall (fs : list callable) (t0 : float) (ic : loc) (h : float)
             (n n' : Z) (hp : heap),
        0 <= n -> n <= n' ->
        (run_system fs t0 ic h n hp).1.1
        = take (Z.to_nat n + 1) (run_system fs t0 ic h n' hp).1.1).
Proof.
  split.
  - intros f t0 x0 h n n' Hn Hn'. unfold run_single.
    replace (Z.to_nat n + 2)%nat with (S (S (Z.to_nat n))) by lia.
    replace (Z.to_nat n' + 2)%nat with (S (S (Z.to_nat n'))) by lia.
    rewrite (single_pulls_S f t0 x0 h n), (single_pulls_S f t0 x0 h n').
    cbn [single_next].
    assert (H1 : 0 + Z.of_nat (Z.to_nat n) = n) by lia.
    assert (H2 : 0 + Z.of_nat (Z.to_nat n') = n') by lia.
    pose proof (single_pulls_prefix f t0 x0 h n n' (Z.to_nat n) (Z.to_nat n')
                  0 t0 x0 Hn' H1 H2) as H.
    destruct (single_pulls f t0 x0 h n _ _) as [l e].
    destruct (single_pulls f t0 x0 h n' _ _) as [l' e'].
    simpl in *. rewrite H. rewrite Nat.add_1_r. reflexivity.
  - intros fs t0 ic h n n' hp Hn Hn'. unfold run_system.
    replace (Z.to_nat n + 2)%nat with (S (S (Z.to_nat n))) by lia.
    replace (Z.to_nat n' + 2)%nat with (S (S (Z.to_nat n'))) by lia.
    rewrite (system_pulls_S fs t0 ic h n), (system_pulls_S fs t0 ic h n').
    rewrite !system_next_created.
    assert (H1 : 0 + Z.of_nat (Z.to_nat n) = n) by lia.
    assert (H2 : 0 + Z.of_nat (Z.to_nat n') = n') by lia.
    pose proof (system_pulls_prefix fs t0 ic h n n' (Z.to_nat n) (Z.to_nat n')
                  0 (hp ++ [hp !!! ic; hp !!! ic]) (length (hp !!! ic)) t0
                  (length hp) Hn' H1 H2) as H.
    destruct (system_pulls fs t0 ic h n _ _ _) as [[l e] hp1].
    destruct (system_pulls fs t0 ic h n' _ _ _) as [[l' e'] hp1'].
    simpl in *. rewrite H by (rewrite length_app; simpl; lia).
    rewrite Nat.add_1_r. reflexivity.
Qed.

Lemma longer_run_extends_shorter_witness :
  (run_single (logistic_rhs logistic_defaults) 0 10 0.1 1).1
  = take (Z.to_nat 1 + 1)
         (run_single (logistic_rhs logistic_defaults) 0 10 0.1 3).1.
Proof.
  destruct longer_run_extends_shorter as (Hsingle & _).
  apply Hsingle; lia.
Defined.

(** ** The shipped models with their default parameters *)

Lemma total_from_values (fs : list callable) (h : float) (n : nat) :
  (forall t xs, length xs = n ->
     Forall (fun r => exists a, r = Ok (VFloat a))
            (map (fun f : callable => f (t :: xs)) fs)) ->
  Forall (total_on h n) fs.
Proof.
  intros H. apply Forall_forall. intros f Hf t xs Hlen.
  specialize (H t xs Hlen). rewrite Forall_forall in H.
  destruct (H (f (t :: xs))) as (a & Ha).
  - apply list_elem_of_In, in_map_iff. exists f. split; [reflexivity|].
    apply list_elem_of_In, Hf.
  - exists (VFloat a), (h * a)%float. rewrite Ha. split; reflexivity.
Qed.

(** X4: with the default parameters, the functions built for the five
    models of the registry compute, at every time and state, the
    floating-point value of their equations, and raise nothing. *)
Theorem default_functions_compute_the_equations :
  (forall t x : float,
     map (fun f : callable => f [t; x]) (default_rhs "logistic")
     = [Ok (VFloat (0.5 * x * (1 - x / 100))%float)])
  /\ (forall t x y : float,
        map (fun f : callable => f [t; x; y]) (default_rhs "lotka_volterra")
        = [Ok (VFloat (1 * x - 0.5 * x * y)%float);
           Ok (VFloat (0.3 * x * y - 0.8 * y)%float)])
  /\ (forall t x y : float,
        map (fun f : callable => f [t; x; y]) (default_rhs "competition")
        = [Ok (VFloat (1 * x * (1 - (x + 0.5 * y) / 100))%float);
           Ok (VFloat (0.8 * y * (1 - (y + 0.6 * x) / 80))%float)])
  /\ (forall t s i r : float,
        map (fun f : callable => f [t; s; i; r]) (default_rhs "sir")
        = [Ok (VFloat (- 0.3 * s * i / 1000)%float);
           Ok (VFloat (0.3 * s * i / 1000 - 0.1 * i)%float);
           Ok (VFloat (0.1 * i)%float)])
  /\ (forall t x y : float,
        map (fun f : callable => f [t; x; y]) (default_rhs "metapopulation")
        = [Ok (VFloat (0.8 * x * (1 - x / 100) + 0.1 * (y - x))%float);
           Ok (VFloat (0.6 * y * (1 - y / 80) + 0.1 * (x - y))%float)]).
Proof.
  repeat split; intros; vm_compute; reflexivity.
Qed.

Lemma default_rhs_total (key : string) (m : model_info) (h : float) :
  (key, m) ∈ models ->
  Forall (total_on h (length (variables m))) (default_rhs key)
  /\ length (default_rhs key) = length (variables m).
Proof.
  intros Hin. unfold models in Hin.
  repeat (apply elem_of_cons in Hin as [Hin|Hin];
          [injection Hin as -> ->|]); [| | | | | inversion Hin].
  all: split; [|reflexivity].
  all: apply total_from_values; intros t xs Hlen.
  - destruct xs as [|x [|? ?]]; try discriminate.
    replace (map _ _) with [Ok (VFloat (0.5 * x * (1 - x / 100))%float)]
      by (vm_compute; reflexivity).
    repeat constructor; eexists; reflexivity.
  - destruct xs as [|x [|y [|? ?]]]; try discriminate.
    replace (map _ _) with [Ok (VFloat (1 * x - 0.5 * x * y)%float);
                            Ok (VFloat (0.3 * x * y - 0.8 * y)%float)]
      by (vm_compute; reflexivity).
    repeat constructor; eexists; reflexivity.
  - destruct xs as [|x [|y [|? ?]]]; try discriminate.
    replace (map _ _)
      with [Ok (VFloat (1 * x * (1 - (x + 0.5 * y) / 100))%float);
            Ok (VFloat (0.8 * y * (1 - (y + 0.6 * x) / 80))%float)]
      by (vm_compute; reflexivity).
    repeat constructor; eexists; reflexivity.
  - destruct xs as [|s [|i [|r [|? ?]]]]; try discriminate.
    replace (map _ _)
      with [Ok (VFloat (- 0.3 * s * i / 1000)%float);
            Ok (VFloat (0.3 * s * i / 1000 - 0.1 * i)%float);
            Ok (VFloat (0.1 * i)%float)]
      by (vm_compute; reflexivity).
    repeat constructor; eexists; reflexivity.
  - destruct xs as [|x [|y [|? ?]]]; try discriminate.
    replace (map _ _)
      with [Ok (VFloat (0.8 * x * (1 - x / 100) + 0.1 * (y - x))%float);
            Ok (VFloat (0.6 * y * (1 - y / 80) + 0.1 * (x - y))%float)]
      by (vm_compute; reflexivity).
    repeat constructor; eexists; reflexivity.
Qed.

(** X5: with the default parameters no run of a model of the registry
    raises: whatever the initial state (of the right size), the step and
    the number [n_steps >= 0] of steps, the run yields [n_steps + 1]
    samples and stops. *)
Theorem default_runs_complete :
  (forall (t0 x0 h : float) (n_steps : Z),
     0 <= n_steps ->
     exists l,
       run_single (logistic_rhs logistic_defaults) t0 x0 h n_steps
       = ((t0, x0) :: l, Exhausted)
       /\ length l = Z.to_nat n_steps)
  /\ (forall (key : string) (m : model_info) (t0 h : float) (n_steps : Z)
             (ic : loc) (hp : heap) (x0 : list float),
        (key, m) ∈ models -> 0 <= n_steps ->
        hp !! ic = Some x0 -> length x0 = length (variables m) ->
        exists l hp',
          run_system (default_rhs key) t0 ic h n_steps hp
          = ((t0, S (length hp), x0) :: l, Exhausted, hp')
          /\ length l = Z.to_nat n_steps).
Proof.
  split.
  - intros t0 x0 h n_steps Hn. unfold run_single.
    replace (Z.to_nat n_steps + 2)%nat with (S (S (Z.to_nat n_steps))) by lia.
    rewrite single_pulls_S. cbn [single_next].
    destruct (single_pulls_total (logistic_rhs logistic_defaults) t0 x0 h
                n_steps (Z.to_nat n_steps)) with (i := 0) (t := t0) (x := x0)
      as (l & -> & Hlen); [|lia|eauto].
    intros t xs Hxs. destruct xs as [|x [|? ?]]; try discriminate.
    exists (VFloat (0.5 * x * (1 - x / 100))%float),
           (h * (0.5 * x * (1 - x / 100)))%float.
    split; [vm_compute; reflexivity | reflexivity].
  - intros key m t0 h n_steps ic hp x0 Hin Hn Hic Hlen.
    destruct (default_rhs_total key m h Hin) as (Htot & Hfs).
    unfold run_system.
    replace (Z.to_nat n_steps + 2)%nat with (S (S (Z.to_nat n_steps))) by lia.
    rewrite system_pulls_S, system_next_created.
    rewrite (list_lookup_total_correct _ _ _ Hic).
    rewrite <- Hlen in Htot, Hfs.
    assert (Hle : (length x0 <= length (default_rhs key))%nat) by lia.
    destruct (system_pulls_total (default_rhs key) t0 ic h n_steps (length x0)
                (Z.to_nat n_steps) Htot Hle
                0 t0 (length hp) (hp ++ [x0; x0]))
      as (l & hp' & -> & Hl).
    + lia.
    + rewrite length_app; simpl; lia.
    + rewrite lookup_total_app_r by lia. rewrite Nat.sub_diag. reflexivity.
    + exists l, hp'. split; [|exact Hl].
      rewrite lookup_total_app_r by lia.
      replace (S (length hp) - length hp)%nat with 1%nat by lia. reflexivity.
Qed.

Lemma default_runs_complete_witness :
  exists l hp',
    run_system (default_rhs "sir") 0 0%nat 0.1 4
               [[990%float; 10%float; 0%float]]
    = ((0%float, 2%nat, [990%float; 10%float; 0%float]) :: l, Exhausted, hp')
    /\ length l = Z.to_nat 4.
Proof.
  destruct default_runs_complete as (_ & Hsystem).
  apply (Hsystem "sir" sir 0%float 0.1%float 4 0%nat
                 [[990%float; 10%float; 0%float]]
                 [990%float; 10%float; 0%float]).
  - unfold models. do 3 apply list_elem_of_further. apply list_elem_of_here.
  - lia.
  - reflexivity.
  - reflexivity.
Defined.

(** ** Columns and rows *)

Lemma append_columns_add_row (values : list float) :
  forall (pre post : list (list float)),
    length post = length values ->
    append_columns (pre ++ post) (length pre) values
    = (pre ++ add_row post values, None).
Proof.
  induction values as [|v rest IH]; intros pre post Hlen.
  - destruct post; [|discriminate]. reflexivity.
  - destruct post as [|c post]; [discriminate|]. cbn [append_columns].
    rewrite lookup_app_r by lia. rewrite Nat.sub_diag. cbn [lookup list_lookup].
    rewrite insert_app_r_alt by lia. rewrite Nat.sub_diag.
    cbn [insert list_insert].
    replace (pre ++ (c ++ [v]) :: post) with ((pre ++ [c ++ [v]]) ++ post)
      by (rewrite <- app_assoc; reflexivity).
    replace (S (length pre)) with (length (pre ++ [c ++ [v]]))
      by (rewrite length_app; simpl; lia).
    rewrite IH by (simpl in Hlen; lia).
    rewrite <- app_assoc. reflexivity.
Qed.

Lemma length_add_row (columns : list (list float)) (values : list float) :
  length columns = length values ->
  length (add_row columns values) = length values.
Proof.
  intros H. unfold add_row. rewrite length_zip_with_l_eq by exact H. exact H.
Qed.

Lemma columns_of_snoc (w : nat) (R : list (float * list float))
    (r : float * list float) :
  columns_of w (R ++ [r]) = add_row (columns_of w R) r.2.
Proof. unfold columns_of. rewrite map_app, fold_left_app. reflexivity. Qed.

Lemma cells_add_row_old (i : nat) (columns : list (list float)) :
  forall values,
    length columns = length values ->
    Forall (fun c => (i < length c)%nat) columns ->
    map (cell_at i) (add_row columns values) = map (cell_at i) columns.
Proof.
  induction columns as [|c columns IH]; intros values Hlen Hall;
    [reflexivity|].
  destruct values as [|v values]; [discriminate|].
  apply Forall_cons in Hall as [Hc Hall]. simpl. f_equal.
  - unfold cell_at. rewrite lookup_app_l by exact Hc. reflexivity.
  - apply IH; [simpl in Hlen; lia | exact Hall].
Qed.

Lemma cells_add_row_new (n : nat) (columns : list (list float)) :
  forall values,
    length columns = length values ->
    Forall (fun c => length c = n) columns ->
    map (cell_at n) (add_row columns values) = map Value values.
Proof.
  induction columns as [|c columns IH]; intros values Hlen Hall.
  - destruct values; [reflexivity | discriminate].
  - destruct values as [|v values]; [discriminate|].
    apply Forall_cons in Hall as [Hc Hall]. simpl. f_equal.
    + unfold cell_at. rewrite lookup_app_r by lia.
      rewrite Hc, Nat.sub_diag. reflexivity.
    + apply IH; [simpl in Hlen; lia | exact Hall].
Qed.

Lemma add_row_lengths (n : nat) (columns : list (list float)) :
  forall values,
    Forall (fun c => length c = n) columns ->
    Forall (fun c => length c = S n) (add_row columns values).
Proof.
  induction columns as [|c columns IH]; intros values Hall; [constructor|].
  destruct values as [|v values]; [constructor|].
  apply Forall_cons in Hall as [Hc Hall]. simpl. constructor.
  - rewrite length_app. simpl. lia.
  - apply IH, Hall.
Qed.

(** The columns that hold samples of one width give back the samples, row
    by row. *)
Lemma columns_of_rows (w : nat) (R : list (float * list float)) :
  Forall (fun r => length r.2 = w) R ->
  length (columns_of w R) = w
  /\ Forall (fun c => length c = length R) (columns_of w R)
  /\ data_rows (map fst R) (columns_of w R) = map row_of R.
Proof.
  induction R as [|r R IH] using rev_ind; intros Hall.
  - unfold columns_of. simpl. split; [apply length_replicate|].
    split; [|reflexivity].
    apply Forall_forall. intros c Hc. apply elem_of_replicate in Hc as [-> _].
    reflexivity.
  - apply Forall_app in Hall as [Hall Hr]. rewrite Forall_singleton in Hr.
    simpl in Hr. destruct (IH Hall) as (Hlen & Hcols & Hrows).
    rewrite columns_of_snoc.
    assert (Hw : length (columns_of w R) = length r.2) by lia.
    split; [rewrite length_add_row; lia|]. split.
    + rewrite length_app. simpl. rewrite Nat.add_1_r.
      apply add_row_lengths, Hcols.
    + unfold data_rows in *. rewrite map_app, imap_app, map_app.
      f_equal.
      * rewrite <- Hrows. apply imap_ext. intros i t Hi. simpl. f_equal.
        apply cells_add_row_old; [exact Hw|].
        eapply Forall_impl; [exact Hcols|]. simpl. intros c Hc. rewrite Hc.
        apply lookup_lt_Some in Hi. rewrite length_map in Hi. exact Hi.
      * simpl. rewrite length_map, Nat.add_0_r. unfold row_of. do 2 f_equal.
        apply cells_add_row_new; [exact Hw | exact Hcols].
Qed.

Lemma collected_rows (w : nat) (R : list (float * list float)) (g : gui) :
  collected w R g ->
  data_rows (time_data g) (population_data g) = map row_of R.
Proof.
  intros (Ht & Hall & [[-> Hp] | Hp]).
  - rewrite Ht, Hp. reflexivity.
  - rewrite Ht, Hp. apply columns_of_rows, Hall.
Qed.

Lemma collected_aligned (w : nat) (R : list (float * list float)) (g : gui) :
  collected w R g ->
  Forall (fun c => length c = length (time_data g)) (population_data g).
Proof.
  intros (Ht & Hall & [[-> Hp] | Hp]).
  - rewrite Hp. constructor.
  - rewrite Ht, Hp, length_map. apply columns_of_rows, Hall.
Qed.

(** Storing a sample of the right width adds it to the samples held. *)
Lemma store_sample_collected (w : nat) (R : list (float * list float))
    (g : gui) (t : float) (values : yielded) :
  collected w R g -> length (contents (objects g) values) = w ->
  exists ts ps phs,
    store_sample g t values = (set_data g ts ps phs, None)
    /\ collected w (R ++ [(t, contents (objects g) values)])
                 (set_data g ts ps phs).
Proof.
  intros (Ht & Hall & Hp) Hw.
  destruct (columns_of_rows w R Hall) as (Hlen & _ & _).
  assert (Hfresh : forall alt : list (list float),
            alt = replicate w [] ->
            (if (length (population_data g) =? 0)%nat then alt
             else population_data g) = columns_of w R).
  { intros alt ->. destruct Hp as [[-> Hp] | Hp]; rewrite Hp.
    - reflexivity.
    - destruct (length (columns_of w R) =? 0)%nat eqn:Hz; [|reflexivity].
      apply Nat.eqb_eq in Hz. rewrite Hlen in Hz.
      destruct (columns_of w R) as [|c cs]; [|simpl in Hlen; lia].
      rewrite Hz. reflexivity. }
  assert (Hnew : forall ps,
            ps = add_row (columns_of w R) (contents (objects g) values) ->
            forall phs,
              collected w (R ++ [(t, contents (objects g) values)])
                        (set_data g (time_data g ++ [t]) ps phs)).
  { intros ps -> phs. split; [|split].
    - simpl. rewrite Ht, map_app. reflexivity.
    - apply Forall_app. split; [exact Hall|]. apply Forall_singleton. exact Hw.
    - right. simpl. rewrite columns_of_snoc. reflexivity. }
  destruct values as [x|y]; unfold store_sample; simpl in Hw.
  - subst w. rewrite (Hfresh [[]] eq_refl).
    destruct (columns_of 1 R) as [|c [|? ?]] eqn:Hc; try discriminate.
    cbn [lookup list_lookup insert list_insert].
    do 3 eexists. split; [reflexivity|]. apply Hnew. reflexivity.
  - rewrite (Hfresh (replicate (length (objects g !!! y)) []))
      by (rewrite Hw; reflexivity).
    pose proof (append_columns_add_row (objects g !!! y) [] (columns_of w R))
      as Happ.
    simpl in Happ. rewrite Happ by lia.
    do 3 eexists. split; [reflexivity|]. apply Hnew. reflexivity.
Qed.

(** ** The width of the samples *)

Lemma next_ok (w : nat) (hp : heap) (gen : generator) :
  gen_ok w hp gen ->
  forall o hp' gen',
    next hp gen = (o, hp', gen') ->
    gen_ok w hp' gen'
    /\ forall t values, o = Yield (t, values) ->
         length (contents hp' values) = w.
Proof.
  intros Hok o hp' gen'. destruct gen as [f t0 x0 h n fr|fs t0 ic h n fr].
  - simpl in Hok. subst w. unfold next.
    destruct (single_next f t0 x0 h n fr) as [o1 fr'].
    intros [= <- <- <-]. split; [reflexivity|].
    intros t values Ho. destruct o1 as [[t1 x1]| |e]; try discriminate.
    injection Ho as <- <-. reflexivity.
  - unfold next. destruct fr as [|m t cv step|].
    + rewrite system_next_created. intros [= <- <- <-]. simpl in Hok.
      split.
      * simpl. split; [rewrite length_app; simpl; lia|].
        rewrite lookup_total_app_r by lia. rewrite Nat.sub_diag. exact Hok.
      * intros t values [= <- <-]. simpl.
        rewrite lookup_total_app_r by lia.
        replace (S (length hp) - length hp)%nat with 1%nat by lia. exact Hok.
    + simpl in Hok. destruct Hok as (Hcv & Hw).
      rewrite system_next_suspended by exact Hcv.
      destruct (step <? n).
      * destruct (stages fs h m t (hp !!! cv)) as [[[[k1 k2] k3] k4]|e].
        -- pose proof (update_cell_length k1 k2 k3 k4 (seq 0 m) (hp !!! cv))
             as Hl.
           destruct (update_cell (hp !!! cv) k1 k2 k3 k4 (seq 0 m))
             as [cur' [e|]]; simpl in Hl.
           ++ intros [= <- <- <-]. split; [exact I | discriminate].
           ++ intros [= <- <- <-]. split.
              ** simpl. split; [rewrite length_app, length_insert; lia|].
                 rewrite lookup_total_app_l by (rewrite length_insert; lia).
                 rewrite list_lookup_total_insert_eq by exact Hcv. lia.
              ** intros t' values [= <- <-]. simpl.
                 rewrite lookup_total_app_r by (rewrite length_insert; lia).
                 rewrite length_insert, Nat.sub_diag. simpl. lia.
        -- intros [= <- <- <-]. split; [exact I | discriminate].
      * intros [= <- <- <-]. split; [exact I | discriminate].
    + simpl. intros [= <- <- <-]. split; [exact I | discriminate].
Qed.

(** ** One step of the animation *)

Lemma samples_none (hp : heap) (gen : generator) (j : nat) :
  samples 1 hp gen = [] -> samples j hp gen = [].
Proof.
  destruct j as [|j]; [reflexivity|]. cbn [samples].
  destruct (next hp gen) as [[[[t values]| |e] hp'] gen']; try reflexivity.
  discriminate.
Qed.

Lemma remaining_pos (n k : Z) : (1 <= remaining n k)%nat.
Proof. unfold remaining. lia. Qed.

Lemma remaining_step (n k : Z) :
  k + 1 < n -> remaining n k = S (remaining n (k + 1)).
Proof. unfold remaining. lia. Qed.

Lemma remaining_last (n k : Z) : n <= k + 1 -> remaining n k = 1%nat.
Proof. unfold remaining. lia. Qed.

Section AnimationProperties.
Variable update_animation_plots :
  list float -> list (list float) -> list (list float) -> option failure.

(** What [animate_step] does in a state that plays: it takes one sample
    from the generator, if there is one, and goes on when the plot could
    be drawn and fewer than [n] steps are made. *)
Lemma animate_step_playing (w : nat) (n k : Z) (R : list (float * list float))
    (hp : heap) (gen : generator) (g : gui) :
  playing w n k R hp gen g ->
  exists g' success,
    animate_step update_animation_plots g = (g', success)
    /\ ((samples 1 hp gen = [] /\ collected w R g' /\ success = false)
        \/ exists t values hp' gen',
             next hp gen = (Yield (t, values), hp', gen')
             /\ collected w (R ++ [(t, contents hp' values)]) g'
             /\ (success = true ->
                 playing w n (k + 1) (R ++ [(t, contents hp' values)])
                         hp' gen' g' /\ k + 1 < n)
             /\ ((forall ts ps phs, update_animation_plots ts ps phs = None) ->
                 success = (k + 1 <? n)))
    /\ (success = false -> is_playing g' = false).
Proof.
  intros (Hcol & Hgen & Hobj & Hok & Hmax & Hstep & Hk & Hplay).
  unfold animate_step. rewrite Hgen, Hobj.
  destruct (next hp gen) as [[o hp'] gen'] eqn:Hnext.
  destruct (next_ok w hp gen Hok o hp' gen' Hnext) as (Hok' & Hwidth).
  assert (Hcol0 : collected w R (set_generator g (Some gen') hp'))
    by exact Hcol.
  destruct o as [[t values]| |e].
  - specialize (Hwidth t values eq_refl).
    destruct (store_sample_collected w R (set_generator g (Some gen') hp')
                t values Hcol0 Hwidth) as (ts & ps & phs & -> & Hcol1).
    simpl in Hcol1.
    cbn [time_data population_data phase_data set_data].
    destruct (update_animation_plots ts ps phs) as [e|] eqn:Hplot.
    + do 2 eexists. split; [reflexivity|]. split; [|reflexivity].
      right. exists t, values, hp', gen'. split; [reflexivity|].
      split; [exact Hcol1|]. split; [discriminate|].
      intros Hnone. rewrite Hnone in Hplot. discriminate.
    + cbn [max_steps current_step set_current_step set_status set_data
           set_generator].
      rewrite Hmax, Hstep.
      destruct (n =? 0) eqn:Hn0.
      * apply Z.eqb_eq in Hn0. do 2 eexists. split; [reflexivity|].
        split; [|reflexivity].
        right. exists t, values, hp', gen'. split; [reflexivity|].
        split; [exact Hcol1|]. split; [discriminate|].
        intros _. symmetry. apply Z.ltb_ge. lia.
      * destruct (n <=? k + 1) eqn:Hlast.
        -- apply Z.leb_le in Hlast. do 2 eexists. split; [reflexivity|].
           split; [|reflexivity].
           right. exists t, values, hp', gen'. split; [reflexivity|].
           split; [exact Hcol1|]. split; [discriminate|].
           intros _. symmetry. apply Z.ltb_ge. lia.
        -- apply Z.leb_gt in Hlast. do 2 eexists. split; [reflexivity|].
           split; [|discriminate].
           right. exists t, values, hp', gen'. split; [reflexivity|].
           split; [exact Hcol1|]. split.
           ++ intros _. split; [|lia].
              repeat split; try assumption; try reflexivity;
                try (apply Hcol1); lia.
           ++ intros _. symmetry. apply Z.ltb_lt. lia.
  - do 2 eexists. split; [reflexivity|]. split; [|reflexivity].
    left. split; [|split; [exact Hcol | reflexivity]].
    cbn [samples]. rewrite Hnext. reflexivity.
  - do 2 eexists. split; [reflexivity|]. split; [|reflexivity].
    left. split; [|split; [exact Hcol | reflexivity]].
    cbn [samples]. rewrite Hnext. reflexivity.
Qed.

(** What [animation_loop] collects. *)
Lemma animation_loop_collects (fuel : nat) :
  forall (w : nat) (n k : Z) (R : list (float * list float)) (hp : heap)
         (gen : generator) (g : gui),
    playing w n k R hp gen g ->
    exists j,
      (j <= remaining n k)%nat
      /\ collected w (R ++ samples j hp gen)
                   (animation_loop update_animation_plots fuel g)
      /\ ((forall ts ps phs, update_animation_plots ts ps phs = None) ->
          (remaining n k <= fuel)%nat ->
          j = remaining n k
          /\ is_playing (animation_loop update_animation_plots fuel g)
             = false).
Proof.
  induction fuel as [|fuel IH]; intros w n k R hp gen g Hplaying.
  - exists 0%nat. split; [lia|]. split.
    + simpl. rewrite app_nil_r. apply Hplaying.
    + intros _ Hrem. pose proof (remaining_pos n k). lia.
  - cbn [animation_loop].
    destruct Hplaying as (Hcol & Hrest). pose proof Hrest as Hrest'.
    destruct Hrest' as (_ & _ & _ & _ & _ & _ & Hplay). rewrite Hplay.
    destruct (animate_step_playing w n k R hp gen g (conj Hcol Hrest))
      as (g' & success & -> & Hcases & Hstop).
    destruct Hcases as [(Hnone & Hcol' & ->)
                       | (t & values & hp' & gen' & Hnext & Hcol' & Hgo & Hplot)].
    + exists (remaining n k). split; [lia|]. split.
      * rewrite (samples_none _ _ _ Hnone), app_nil_r. exact Hcol'.
      * intros _ _. split; [reflexivity | apply Hstop; reflexivity].
    + destruct success.
      * destruct (Hgo eq_refl) as (Hplaying' & Hlt).
        destruct (IH w n (k + 1) _ hp' gen' g' Hplaying')
          as (j & Hj & Hcolj & Hfull).
        exists (S j). rewrite (remaining_step n k Hlt). split; [lia|]. split.
        -- cbn [samples]. rewrite Hnext.
           rewrite <- app_assoc in Hcolj. exact Hcolj.
        -- intros Hnone Hfuel. destruct (Hfull Hnone) as (-> & Hoff); [lia|].
           split; [reflexivity | exact Hoff].
      * exists 1%nat. split; [apply remaining_pos|]. split.
        -- cbn [samples]. rewrite Hnext. exact Hcol'.
        -- intros Hnone _. specialize (Hplot Hnone). symmetry in Hplot.
           apply Z.ltb_ge in Hplot.
           rewrite (remaining_last n k) by lia.
           split; [reflexivity | apply Hstop; reflexivity].
Qed.
End AnimationProperties.

(** ** The samples of a generator and the run of its call *)

Lemma samples_take (F : nat) :
  forall (j : nat) (hp : heap) (gen : generator),
    (j <= F)%nat -> samples j hp gen = take j (samples F hp gen).
Proof.
  induction F as [|F IH]; intros j hp gen Hj.
  - replace j with 0%nat by lia. reflexivity.
  - destruct j as [|j]; [reflexivity|]. cbn [samples].
    destruct (next hp gen) as [[[[t values]| |e] hp'] gen']; try reflexivity.
    simpl. f_equal. apply IH. lia.
Qed.

Lemma samples_single (f : callable) (t0 x0 h : float) (n : Z) (F : nat) :
  forall (hp : heap) (fr : single_frame),
    samples F hp (SingleGenerator f t0 x0 h n fr)
    = map (fun s => (s.1, [s.2])) (single_pulls f t0 x0 h n F fr).1.
Proof.
  induction F as [|F IH]; intros hp fr; [reflexivity|].
  cbn [samples next]. rewrite single_pulls_S.
  destruct (single_next f t0 x0 h n fr) as [[[t x]| |e] fr']; try reflexivity.
  rewrite IH. destruct (single_pulls f t0 x0 h n F fr') as [l e].
  reflexivity.
Qed.

Lemma samples_system (fs : list callable) (t0 : float) (ic : loc) (h : float)
    (n : Z) (F : nat) :
  forall (hp : heap) (fr : system_frame),
    samples F hp (SystemGenerator fs t0 ic h n fr)
    = map (fun s => (s.1.1, s.2)) (system_pulls fs t0 ic h n F hp fr).1.1.
Proof.
  induction F as [|F IH]; intros hp fr; [reflexivity|].
  cbn [samples next]. rewrite system_pulls_S.
  destruct (system_next fs t0 ic h n hp fr) as [[[[t y]| |e] hp'] fr'];
    try reflexivity.
  rewrite IH. destruct (system_pulls fs t0 ic h n F hp' fr') as [[l e] hp''].
  reflexivity.
Qed.

Lemma samples_run (hp : heap) (gen : generator) (n : Z) (j : nat) :
  fresh hp gen n -> (j <= Z.to_nat n + 2)%nat ->
  samples j hp gen = take j (run_of hp gen).
Proof.
  intros Hfresh Hj. rewrite (samples_take (Z.to_nat n + 2) j hp gen Hj).
  f_equal. destruct gen as [f t0 x0 h n' fr|fs t0 ic h n' fr]; simpl in Hfresh.
  - destruct Hfresh as (-> & ->). apply samples_single.
  - destruct Hfresh as (-> & -> & _). apply samples_system.
Qed.

Lemma fresh_ok (hp : heap) (gen : generator) (n : Z) :
  fresh hp gen n -> gen_ok (width hp gen) hp gen.
Proof.
  destruct gen as [f t0 x0 h n' fr|fs t0 ic h n' fr]; simpl.
  - reflexivity.
  - intros (-> & _). reflexivity.
Qed.

(** ** Preparing *)

Section Prepared.
Variable float_of_text : string -> option float.
Variable setup_animation_plots : model_info -> option failure.
Variable update_animation_plots :
  list float -> list (list float) -> list (list float) -> option failure.

Lemma prepare_done (g g1 : gui) :
  prepare_animation_data float_of_text setup_animation_plots g
  = (g1, Done tt) ->
  exists gen,
    solver_generator g1 = Some gen
    /\ fresh (objects g1) gen (max_steps g1)
    /\ time_data g1 = [] /\ population_data g1 = []
    /\ current_step g1 = 0.
Proof.
  unfold prepare_animation_data.
  destruct (dict_get models (current_model g)) as [m|]; [|discriminate].
  destruct (and_then _ _) as [[[[ps ics] h] n]|e]; [|discriminate].
  destruct (create_model_functions models (current_model g) ps) as [fs|e];
    [|discriminate].
  destruct (String.eqb (type m) "single").
  - destruct fs as [|f fs]; [discriminate|].
    destruct ics as [|x0 ics]; [discriminate|].
    destruct (setup_animation_plots m); [discriminate|].
    intros [= <-]. eexists. split; [reflexivity|]. simpl. auto.
  - cbn [alloc]. destruct (setup_animation_plots m); [discriminate|].
    intros [= <-]. eexists. split; [reflexivity|]. simpl.
    rewrite length_app. simpl. repeat split; lia.
Qed.

Lemma prepare_failed (g g1 : gui) (e : failure) :
  prepare_animation_data float_of_text setup_animation_plots g
  = (g1, Failed e) ->
  (forall m, setup_animation_plots m = None) ->
  time_data g1 = time_data g /\ population_data g1 = population_data g
  /\ phase_data g1 = phase_data g
  /\ solver_generator g1 = solver_generator g /\ objects g1 = objects g
  /\ current_step g1 = current_step g /\ is_playing g1 = is_playing g.
Proof.
  unfold prepare_animation_data. intros H Hsetup.
  destruct (dict_get models (current_model g)) as [m|];
    [|injection H as <- _; repeat split].
  destruct (and_then _ _) as [[[[ps ics] h] n]|e'];
    [|injection H as <- _; repeat split].
  destruct (create_model_functions models (current_model g) ps) as [fs|e'];
    [|injection H as <- _; repeat split].
  rewrite Hsetup in H.
  destruct (String.eqb (type m) "single").
  - destruct fs as [|f fs]; [injection H as <- _; repeat split|].
    destruct ics as [|x0 ics]; [injection H as <- _; repeat split|].
    discriminate.
  - cbn [alloc] in H. discriminate.
Qed.

Lemma prepared_playing (g1 : gui) (gen : generator) :
  solver_generator g1 = Some gen ->
  fresh (objects g1) gen (max_steps g1) ->
  time_data g1 = [] -> population_data g1 = [] -> current_step g1 = 0 ->
  playing (width (objects g1) gen) (max_steps g1) 0 [] (objects g1) gen
          (set_is_playing g1 true).
Proof.
  intros Hgen Hfresh Ht Hp Hstep. repeat split; simpl; try assumption.
  - constructor.
  - left. split; [reflexivity | exact Hp].
  - apply (fresh_ok _ _ _ Hfresh).
  - lia.
Qed.

(** X7: after a start that prepared the animation, and whatever the
    drawing does, the data collected are the first [m] samples of the run
    of the generator that was prepared, for some [m]: the times in
    [time_data], columns of [population_data] as long as [time_data],
    and complete rows, without a blank cell, in the rows that
    [export_data_csv] builds. *)
Theorem animation_collects_a_prefix_of_the_run :
  forall (fuel : nat) (g g1 : gui),
    is_playing g = false -> current_step g = 0 ->
    prepare_animation_data float_of_text setup_animation_plots g
    = (g1, Done tt) ->
    exists gen m,
      solver_generator g1 = Some gen
      /\ time_data (start_animation float_of_text setup_animation_plots
                                    update_animation_plots fuel g)
         = map fst (take m (run_of (objects g1) gen))
      /\ data_rows
           (time_data (start_animation float_of_text setup_animation_plots
                                       update_animation_plots fuel g))
           (population_data (start_animation float_of_text
                               setup_animation_plots update_animation_plots
                               fuel g))
         = map row_of (take m (run_of (objects g1) gen))
      /\ Forall
           (fun c =>
              length c
              = length (time_data (start_animation float_of_text
                                     setup_animation_plots
                                     update_animation_plots fuel g)))
           (population_data (start_animation float_of_text
                               setup_animation_plots update_animation_plots
                               fuel g)).
Proof.
  intros fuel g g1 Hplay Hstep Hprep.
  destruct (prepare_done g g1 Hprep) as (gen & Hgen & Hfresh & Ht & Hp & Hs).
  unfold start_animation. rewrite Hplay, Hstep, Hprep. cbn [Z.eqb].
  destruct (animation_loop_collects update_animation_plots (S fuel) _ _ _ _ _ _ _
              (prepared_playing g1 gen Hgen Hfresh Ht Hp Hs))
    as (j & Hj & Hcol & _).
  exists gen, j. split; [exact Hgen|].
  simpl in Hcol. rewrite (samples_run _ _ _ j Hfresh) in Hcol
    by (unfold remaining in Hj; lia).
  split; [apply Hcol|].
  split; [apply (collected_rows _ _ _ Hcol)|].
  apply (collected_aligned _ _ _ Hcol).
Qed.

(** X8: when the drawing raises nothing, an animation left to play for
    at least [max_steps] calls stops by itself holding the first
    [max(1, max_steps)] samples of the run (all of them when the run
    has fewer): with [max_steps >= 1], the sample after the last step
    of a run of [max_steps] steps is never taken. *)
Theorem animation_stops_after_max_steps_samples :
  forall (fuel : nat) (g g1 : gui),
    (forall ts ps phs, update_animation_plots ts ps phs = None) ->
    is_playing g = false -> current_step g = 0 ->
    prepare_animation_data float_of_text setup_animation_plots g
    = (g1, Done tt) ->
    max_steps g1 <= Z.of_nat fuel + 1 ->
    exists gen,
      solver_generator g1 = Some gen
      /\ data_rows
           (time_data (start_animation float_of_text setup_animation_plots
                                       update_animation_plots fuel g))
           (population_data (start_animation float_of_text
                               setup_animation_plots update_animation_plots
                               fuel g))
         = map row_of (take (Z.to_nat (Z.max 1 (max_steps g1)))
                            (run_of (objects g1) gen))
      /\ is_playing (start_animation float_of_text setup_animation_plots
                                     update_animation_plots fuel g) = false.
Proof.
  intros fuel g g1 Hplots Hplay Hstep Hprep Hfuel.
  destruct (prepare_done g g1 Hprep) as (gen & Hgen & Hfresh & Ht & Hp & Hs).
  unfold start_animation. rewrite Hplay, Hstep, Hprep. cbn [Z.eqb].
  destruct (animation_loop_collects update_animation_plots (S fuel) _ _ _ _ _ _ _
              (prepared_playing g1 gen Hgen Hfresh Ht Hp Hs))
    as (j & Hj & Hcol & Hfull).
  destruct (Hfull Hplots) as (-> & Hoff); [unfold remaining; lia|].
  exists gen. split; [exact Hgen|]. split; [|exact Hoff].
  simpl in Hcol. rewrite (samples_run _ _ _ _ Hfresh) in Hcol
    by (unfold remaining; lia).
  unfold remaining in Hcol. rewrite Z.sub_0_r in Hcol.
  apply (collected_rows _ _ _ Hcol).
Qed.

(** X11: a start whose preparation fails (the drawing set-up apart)
    returns the state as the preparation left it: not playing, with the
    lists of data and the generator of the run before untouched. *)
Theorem failed_start_keeps_the_data :
  forall (fuel : nat) (g g1 : gui) (e : failure),
    (forall m, setup_animation_plots m = None) ->
    is_playing g = false -> current_step g = 0 ->
    prepare_animation_data float_of_text setup_animation_plots g
    = (g1, Failed e) ->
    start_animation float_of_text setup_animation_plots
                    update_animation_plots fuel g = g1
    /\ time_data g1 = time_data g /\ population_data g1 = population_data g
    /\ phase_data g1 = phase_data g
    /\ solver_generator g1 = solver_generator g
    /\ is_playing g1 = false.
Proof.
  intros fuel g g1 e Hsetup Hplay Hstep Hprep.
  destruct (prepare_failed g g1 e Hprep Hsetup)
    as (Ht & Hp & Hph & Hgen & _ & _ & Hpl).
  unfold start_animation. rewrite Hplay, Hstep, Hprep. cbn [Z.eqb].
  repeat split; try assumption. rewrite Hpl. exact Hplay.
Qed.
End Prepared.

Lemma fresh_yields_initial (hp : heap) (gen : generator) (n : Z) :
  fresh hp gen n ->
  exists t values hp' gen',
    next hp gen = (Yield (t, values), hp', gen')
    /\ (t, contents hp' values) = initial_sample hp gen.
Proof.
  destruct gen as [f t0 x0 h n' fr|fs t0 ic h n' fr]; simpl.
  - intros (-> & _). do 4 eexists. split; reflexivity.
  - intros (-> & _). rewrite system_next_created. do 4 eexists.
    split; [reflexivity|]. cbn [contents]. f_equal.
    rewrite lookup_total_app_r by lia.
    replace (S (length hp) - length hp)%nat with 1%nat by lia. reflexivity.
Qed.

Section Edge.
Variable float_of_text : string -> option float.
Variable setup_animation_plots : model_info -> option failure.
Variable update_animation_plots :
  list float -> list (list float) -> list (list float) -> option failure.

(** X9: when the number of steps prepared is zero (a duration smaller
    than the step), the first step of the animation stores the initial
    sample, the arguments of the run, and nothing else; then it fails
    and the animation stops with its step back at zero: with the
    exception of the drawing when the drawing raises one, with
    [ZeroDivisionError] when it raises none; the status line shows the
    exception. *)
Theorem zero_max_steps_breaks_the_first_step :
  forall (fuel : nat) (g g1 : gui),
    is_playing g = false -> current_step g = 0 ->
    prepare_animation_data float_of_text setup_animation_plots g
    = (g1, Done tt) ->
    max_steps g1 = 0 ->
    exists gen,
      let g' := start_animation float_of_text setup_animation_plots
                                update_animation_plots fuel g in
      solver_generator g1 = Some gen
      /\ is_playing g' = false /\ current_step g' = 0
      /\ time_data g' = [(initial_sample (objects g1) gen).1]
      /\ data_rows (time_data g') (population_data g')
         = [row_of (initial_sample (objects g1) gen)]
      /\ status_label g'
         = match update_animation_plots (time_data g') (population_data g')
                                        (phase_data g') with
           | Some e => Broken e
           | None => Broken (Python ZeroDivisionError)
           end.
Proof.
  intros fuel g g1 Hplay Hstep Hprep Hzero.
  destruct (prepare_done _ _ g g1 Hprep) as (gen & Hgen & Hfresh & Ht & Hp & Hs).
  exists gen. cbv zeta.
  unfold start_animation. rewrite Hplay, Hstep, Hprep. cbn [Z.eqb].
  cbn [animation_loop is_playing set_is_playing].
  destruct (fresh_yields_initial _ _ _ Hfresh)
    as (t & values & hp' & gen' & Hnext & Hinit).
  pose proof (prepared_playing g1 gen Hgen Hfresh Ht Hp Hs) as Hpl.
  destruct Hpl as (Hcol & _ & _ & Hok & _).
  destruct (next_ok _ _ _ Hok _ _ _ Hnext) as (_ & Hwidth).
  specialize (Hwidth t values eq_refl).
  unfold animate_step.
  cbn [solver_generator objects set_is_playing]. rewrite Hgen, Hnext.
  assert (Hcol0 : collected (width (objects g1) gen) []
                    (set_generator (set_is_playing g1 true) (Some gen') hp'))
    by exact Hcol.
  destruct (store_sample_collected _ _ _ t values Hcol0 Hwidth)
    as (ts & ps & phs & -> & Hcol1).
  cbn [objects set_generator set_is_playing app] in Hcol1.
  rewrite Hinit in Hcol1.
  pose proof (collected_rows _ _ _ Hcol1) as Hrows.
  destruct Hcol1 as (Htime & _).
  cbn [time_data population_data phase_data set_data map] in Htime, Hrows.
  cbn [time_data population_data phase_data set_data].
  destruct (update_animation_plots ts ps phs) as [e|] eqn:Hplots.
  - cbn. rewrite Hplots. repeat split; assumption.
  - cbn [max_steps set_current_step set_data set_generator set_is_playing].
    rewrite Hzero. cbn. rewrite Hplots. repeat split; assumption.
Qed.

(** ** Pausing *)

Lemma animate_step_status (g : gui) (s : status_text) :
  animate_step update_animation_plots (set_status g s)
  = animate_step update_animation_plots g.
Proof.
  unfold animate_step. cbn [solver_generator objects set_status].
  destruct (solver_generator g) as [gen|]; [|reflexivity].
  destruct (next (objects g) gen) as [[[[t values]| |e] hp] gen'];
    try reflexivity.
  unfold store_sample.
  cbn [time_data population_data phase_data objects set_generator set_status].
  destruct values as [x|y].
  - destruct (_ !! 0%nat); [|reflexivity].
    cbn [time_data population_data phase_data set_data].
    destruct (update_animation_plots _ _ _); [reflexivity|].
    cbn [max_steps current_step set_current_step set_data set_generator
         set_status].
    destruct (max_steps g =? 0); [reflexivity|].
    destruct (max_steps g <=? current_step g + 1); reflexivity.
  - destruct (append_columns _ 0 _) as [columns [e|]]; [reflexivity|].
    cbn [time_data population_data phase_data set_data].
    destruct (update_animation_plots _ _ _); [reflexivity|].
    cbn [max_steps current_step set_current_step set_data set_generator
         set_status].
    destruct (max_steps g =? 0); [reflexivity|].
    destruct (max_steps g <=? current_step g + 1); reflexivity.
Qed.

Lemma animate_step_stops (g g' : gui) :
  animate_step update_animation_plots g = (g', false) -> is_playing g' = false.
Proof.
  unfold animate_step.
  destruct (solver_generator g) as [gen|]; [|intros [= <-]; reflexivity].
  destruct (next (objects g) gen) as [[[[t values]| |e] hp] gen'];
    try (intros [= <-]; reflexivity).
  destruct (store_sample _ t values) as [g1 [e|]];
    [intros [= <-]; reflexivity|].
  destruct (update_animation_plots _ _ _); [intros [= <-]; reflexivity|].
  destruct (_ =? 0); [intros [= <-]; reflexivity|].
  destruct (_ <=? _); [intros [= <-]; reflexivity | discriminate].
Qed.

Lemma animation_loop_idle (fuel : nat) (g : gui) :
  is_playing g = false -> animation_loop update_animation_plots fuel g = g.
Proof. intros H. destruct fuel; [reflexivity|]. simpl. rewrite H. reflexivity. Qed.

Lemma animation_loop_add (a b : nat) :
  forall g,
    animation_loop update_animation_plots (a + b) g
    = animation_loop update_animation_plots b
        (animation_loop update_animation_plots a g).
Proof.
  induction a as [|a IH]; intros g; [reflexivity|].
  cbn [Nat.add animation_loop].
  destruct (is_playing g) eqn:Hplay.
  - destruct (animate_step update_animation_plots g) as [g' success] eqn:Hstep.
    destruct success; [apply IH|].
    rewrite animation_loop_idle; [reflexivity|].
    apply (animate_step_stops _ _ Hstep).
  - rewrite animation_loop_idle; [reflexivity | exact Hplay].
Qed.

(** X10: pausing an animation that plays and has made a step, and
    starting it again, gives the state that playing on without the pause
    gives: nothing is prepared again, no sample is lost or taken twice. *)
Theorem pause_then_start_resumes :
  forall (a b : nat) (g : gui),
    is_playing (animation_loop update_animation_plots a g) = true ->
    current_step (animation_loop update_animation_plots a g) <> 0 ->
    start_animation float_of_text setup_animation_plots
                    update_animation_plots b
                    (pause_animation
                       (animation_loop update_animation_plots a g))
    = animation_loop update_animation_plots (a + S b) g.
Proof.
  intros a b g Hplay Hstep. rewrite animation_loop_add.
  set (g1 := animation_loop update_animation_plots a g) in *.
  unfold start_animation.
  cbn [is_playing current_step pause_animation set_status set_is_playing].
  replace (current_step g1 =? 0) with false
    by (symmetry; apply Z.eqb_neq; exact Hstep).
  replace (set_is_playing (pause_animation g1) true) with (set_status g1 Paused)
    by (destruct g1; simpl in Hplay; subst; reflexivity).
  cbn [animation_loop is_playing set_status].
  rewrite animate_step_status, Hplay. reflexivity.
Qed.
End Edge.

(** ** Witnesses *)

Lemma logistic_gui_prepared :
  (prepare_animation_data decimal_value no_failure_setup
                          (logistic_gui "0.5" "0.1")).2 = Done tt.
Proof. vm_compute. reflexivity. Qed.

Lemma prepared_pair (g : gui) :
  (prepare_animation_data decimal_value no_failure_setup g).2 = Done tt ->
  prepare_animation_data decimal_value no_failure_setup g
  = ((prepare_animation_data decimal_value no_failure_setup g).1, Done tt).
Proof.
  destruct (prepare_animation_data decimal_value no_failure_setup g) as [g1 r].
  simpl. intros ->. reflexivity.
Qed.

Lemma animation_collects_a_prefix_of_the_run_witness :
  exists gen m,
    solver_generator
      (prepare_animation_data decimal_value no_failure_setup
                              (logistic_gui "0.5" "0.1")).1 = Some gen
    /\ time_data (start_animation decimal_value no_failure_setup
                                  no_failure_update 10
                                  (logistic_gui "0.5" "0.1"))
       = map fst
           (take m
              (run_of
                 (objects
                    (prepare_animation_data decimal_value no_failure_setup
                                            (logistic_gui "0.5" "0.1")).1)
                 gen))
    /\ data_rows
         (time_data (start_animation decimal_value no_failure_setup
                                     no_failure_update 10
                                     (logistic_gui "0.5" "0.1")))
         (population_data (start_animation decimal_value no_failure_setup
                                           no_failure_update 10
                                           (logistic_gui "0.5" "0.1")))
       = map row_of
           (take m
              (run_of
                 (objects
                    (prepare_animation_data decimal_value no_failure_setup
                                            (logistic_gui "0.5" "0.1")).1)
                 gen))
    /\ Forall
         (fun c =>
            length c
            = length (time_data (start_animation decimal_value
                                   no_failure_setup no_failure_update 10
                                   (logistic_gui "0.5" "0.1"))))
         (population_data (start_animation decimal_value no_failure_setup
                                           no_failure_update 10
                                           (logistic_gui "0.5" "0.1"))).
Proof.
  apply (animation_collects_a_prefix_of_the_run decimal_value no_failure_setup
           no_failure_update 10 (logistic_gui "0.5" "0.1")).
  - reflexivity.
  - reflexivity.
  - apply prepared_pair, logistic_gui_prepared.
Defined.

Lemma animation_stops_after_max_steps_samples_witness :
  exists gen,
    solver_generator
      (prepare_animation_data decimal_value no_failure_setup
                              (logistic_gui "0.5" "0.1")).1 = Some gen
    /\ data_rows
         (time_data (start_animation decimal_value no_failure_setup
                                     no_failure_update 10
                                     (logistic_gui "0.5" "0.1")))
         (population_data (start_animation decimal_value no_failure_setup
                                           no_failure_update 10
                                           (logistic_gui "0.5" "0.1")))
       = map row_of
           (take
              (Z.to_nat
                 (Z.max 1
                    (max_steps
                       (prepare_animation_data decimal_value no_failure_setup
                                               (logistic_gui "0.5" "0.1")).1)))
              (run_of
                 (objects
                    (prepare_animation_data decimal_value no_failure_setup
                                            (logistic_gui "0.5" "0.1")).1)
                 gen))
    /\ is_playing (start_animation decimal_value no_failure_setup
                                   no_failure_update 10
                                   (logistic_gui "0.5" "0.1")) = false.
Proof.
  apply (animation_stops_after_max_steps_samples decimal_value
           no_failure_setup no_failure_update 10 (logistic_gui "0.5" "0.1")).
  - intros ts ps phs. reflexivity.
  - reflexivity.
  - reflexivity.
  - apply prepared_pair, logistic_gui_prepared.
  - vm_compute. discriminate.
Defined.

Lemma zero_max_steps_breaks_the_first_step_witness :
  exists gen,
    let g' := start_animation decimal_value no_failure_setup
                              no_failure_update 3
                              (logistic_gui "0.05" "0.1") in
    let g1 := (prepare_animation_data decimal_value no_failure_setup
                                      (logistic_gui "0.05" "0.1")).1 in
    solver_generator g1 = Some gen
    /\ is_playing g' = false /\ current_step g' = 0
    /\ time_data g' = [(initial_sample (objects g1) gen).1]
    /\ data_rows (time_data g') (population_data g')
       = [row_of (initial_sample (objects g1) gen)]
    /\ status_label g'
       = match no_failure_update (time_data g') (population_data g')
                                 (phase_data g') with
         | Some e => Broken e
         | None => Broken (Python ZeroDivisionError)
         end.
Proof.
  apply (zero_max_steps_breaks_the_first_step decimal_value no_failure_setup
           no_failure_update 3 (logistic_gui "0.05" "0.1")
           (prepare_animation_data decimal_value no_failure_setup
                                   (logistic_gui "0.05" "0.1")).1).
  - reflexivity.
  - reflexivity.
  - apply prepared_pair. vm_compute. reflexivity.
  - vm_compute. reflexivity.
Defined.

Lemma pause_then_start_resumes_witness :
  start_animation decimal_value no_failure_setup no_failure_update 1
    (pause_animation
       (animation_loop no_failure_update 2
          (set_is_playing
             (prepare_animation_data decimal_value no_failure_setup
                                     (logistic_gui "0.5" "0.1")).1 true)))
  = animation_loop no_failure_update (2 + 2)
      (set_is_playing
         (prepare_animation_data decimal_value no_failure_setup
                                 (logistic_gui "0.5" "0.1")).1 true).
Proof.
  apply (pause_then_start_resumes decimal_value no_failure_setup
           no_failure_update 2 1).
  - vm_compute. reflexivity.
  - vm_compute. discriminate.
Defined.

Lemma failed_start_keeps_the_data_witness :
  start_animation decimal_value no_failure_setup no_failure_update 5
                  (logistic_gui "0.5" "0")
  = logistic_gui "0.5" "0"
  /\ time_data (logistic_gui "0.5" "0") = time_data (logistic_gui "0.5" "0")
  /\ population_data (logistic_gui "0.5" "0")
     = population_data (logistic_gui "0.5" "0")
  /\ phase_data (logistic_gui "0.5" "0") = phase_data (logistic_gui "0.5" "0")
  /\ solver_generator (logistic_gui "0.5" "0")
     = solver_generator (logistic_gui "0.5" "0")
  /\ is_playing (logistic_gui "0.5" "0") = false.
Proof.
  apply (failed_start_keeps_the_data decimal_value no_failure_setup
           no_failure_update 5 (logistic_gui "0.5" "0")
           (logistic_gui "0.5" "0") (Python ZeroDivisionError)).
  - intros m. reflexivity.
  - reflexivity.
  - reflexivity.
  - vm_compute. reflexivity.
Defined.

(** ** The general case of the builder *)

Lemma bind_vars_ok (args : list float) (var_names : list string) :
  forall (i : nat) (base env : env),
    bind_vars var_names args i base = Ok env ->
    (var_names <> [] -> i + length var_names <= length args)%nat
    /\ (forall v, v ∉ var_names -> env_get env v = env_get base v)
    /\ (forall j v a,
          var_names !! j = Some v -> args !! (i + j)%nat = Some a ->
          (forall j', (j < j')%nat -> var_names !! j' <> Some v) ->
          env_get env v = Some (VFloat a)).
Proof.
  induction var_names as [|var rest IH]; intros i base env; simpl.
  - intros [= <-]. split; [congruence|]. split; [reflexivity|].
    intros j v a Hj. discriminate.
  - intros H. apply bind_ok in H as (a0 & Ha0 & H).
    unfold index in Ha0. destruct (args !! i) as [a0'|] eqn:Hi; [|discriminate].
    injection Ha0 as ->.
    destruct (IH (S i) _ env H) as (Hlen & Hout & Hin).
    split.
    { intros _. apply lookup_lt_Some in Hi.
      destruct rest as [|var' rest']; [simpl; lia|].
      specialize (Hlen ltac:(discriminate)). simpl in *. lia. }
    split.
    + intros v Hv. apply not_elem_of_cons in Hv as [Hne Hv].
      rewrite (Hout v Hv). simpl.
      destruct (String.eqb var v) eqn:Heq; [|reflexivity].
      apply String.eqb_eq in Heq. congruence.
    + intros j v a Hj Ha Hlast. destruct j as [|j].
      * injection Hj as ->. rewrite Nat.add_0_r in Ha.
        rewrite Hi in Ha. injection Ha as ->.
        rewrite Hout.
        -- simpl. rewrite String.eqb_refl. reflexivity.
        -- intros Hv. apply list_elem_of_lookup in Hv as [j' Hj'].
           apply (Hlast (S j')); [lia | exact Hj'].
      * apply (Hin j v a).
        -- exact Hj.
        -- rewrite <- Ha. f_equal. lia.
        -- intros j' Hlt. apply (Hlast (S j')). lia.
Qed.

Lemma bind_vars_short (args : list float) (var_names : list string) :
  forall (i : nat) (base : env),
    (length args < i + length var_names)%nat -> (i <= length args)%nat ->
    bind_vars var_names args i base = Err IndexError.
Proof.
  induction var_names as [|var rest IH]; intros i base Hlen Hi; simpl in *.
  - lia.
  - unfold index. destruct (args !! i) as [a|] eqn:Ha; [|reflexivity].
    cbn [bind]. apply lookup_lt_Some in Ha. apply IH; lia.
Qed.

(** X12: the function made for a model of another size than one, two
    or three variables binds the declared names by position: a name gets
    the argument at its place (at its last place, when it is declared
    twice), other names keep what [t] and [np] are bound to; it raises
    [IndexError] before evaluating when given fewer values than names,
    and [TypeError] when called with nothing. *)
Theorem general_functions_bind_by_position :
  (forall (var_names : list string) (eq_str : string) (t : float)
          (args : list float) (local_vars : env),
     bind_vars var_names args 0 [("np", np); ("t", VFloat t)] = Ok local_vars ->
     make_func var_names eq_str (t :: args) = eval eq_str local_vars
     /\ (length var_names <= length args)%nat
     /\ (forall v, v ∉ var_names ->
           env_get local_vars v
           = env_get [("np", np); ("t", VFloat t)] v)
     /\ (forall j v a,
           var_names !! j = Some v -> args !! j = Some a ->
           (forall j', (j < j')%nat -> var_names !! j' <> Some v) ->
           env_get local_vars v = Some (VFloat a)))
  /\ (forall (var_names : list string) (eq_str : string) (t : float)
             (args : list float),
        (length args < length var_names)%nat ->
        make_func var_names eq_str (t :: args) = Err IndexError)
  /\ (forall (var_names : list string) (eq_str : string),
        make_func var_names eq_str [] = Err TypeError).
Proof.
  split; [|split].
  - intros var_names eq_str t args local_vars Hbind.
    destruct (bind_vars_ok args var_names 0 _ _ Hbind) as (Hlen & Hout & Hin).
    split; [unfold make_func; rewrite Hbind; reflexivity|].
    split; [destruct var_names; [simpl; lia | apply Hlen; discriminate]|].
    split; [exact Hout | exact Hin].
  - intros var_names eq_str t args Hlen. unfold make_func.
    rewrite bind_vars_short by lia. reflexivity.
  - reflexivity.
Qed.

Lemma general_functions_bind_by_position_witness :
  make_func ["u"; "v"; "w"; "z"] "u*z" [0%float; 1%float; 2%float]
  = Err IndexError.
Proof.
  destruct general_functions_bind_by_position as (_ & Hshort & _).
  apply Hshort. simpl. lia.
Defined.
